(** * Gradient bucketing and reduction of [fairscale.optim.oss_reduce_wrap]

    A shallow embedding of [ModelDispatch.__init__], [ModelDispatch.dispatch_grads]
    and [ModelDispatch._reduce_grads_task], followed by the properties of the
    bucketing reducer.

    Modelling conventions.
    - A tensor is its flat view: the list of its elements.  Elements are exact
      rationals ([Q]); rounding of the machine number formats is not modelled.
    - Shapes agree, as [torch] has them: a gradient has the size of its
      parameter ([wf_store]) and the buffers of a device have one size.  What
      [copy_] does between tensors of different sizes is not modelled; the
      theorems that state that the reducer completes assume these shapes.
    - Python objects that are mutated in place (the parameters and their
      gradient slots) live in a store indexed by object identity, so that two
      occurrences of the same parameter in the partition alias each other.
    - Exceptions are values of [exn]; a computation that can raise returns a
      [result].
    - The collective transport ([torch.distributed]) is external.  A call
      [dist.reduce(..., async_op=True)] is recorded as a [Work] handle; the
      effect of the collective on the local tensor is given by a [Transport]
      and becomes visible when the handle is waited on. *)

From Stdlib Require Import List Arith Bool Lia ZArith QArith Sorted.
Import ListNotations.

Local Close Scope Q_scope.
Local Open Scope nat_scope.

(** ** Tensors, parameters and the store *)

Inductive Dtype := float16 | float32 | float64.

Record Tensor := mkTensor {
  data : list Q;          (* t.view(-1) *)
  tensor_dtype : Dtype;   (* t.dtype *)
  requires_grad : bool    (* t.requires_grad *)
}.

(** [t.numel()] *)
Definition tensor_numel (t : Tensor) : nat := length (data t).

Record Param := mkParam {
  numel : nat;            (* p.numel() *)
  dtype : Dtype;          (* p.dtype *)
  grad : option Tensor    (* p.grad, None when absent *)
}.

(** Identity of a [torch.nn.Parameter] object. *)
Definition ParamId := nat.

Definition Store := ParamId -> Param.

(** [p.grad = g] *)
Definition set_grad (s : Store) (p : ParamId) (g : Tensor) : Store :=
  fun q => if Nat.eqb q p
           then {| numel := numel (s p); dtype := dtype (s p); grad := Some g |}
           else s q.

(** ** Exceptions *)

Inductive exn := IndexError | KeyError | AttributeError | RuntimeError.

Inductive result (A : Type) :=
| Ok (a : A)
| Raise (e : exn).
Arguments Ok {A} a.
Arguments Raise {A} e.

Definition bind {A B : Type} (m : result A) (k : A -> result B) : result B :=
  match m with
  | Ok a => k a
  | Raise e => Raise e
  end.

Notation "x <- m ;; k" := (bind m (fun x => k))
  (at level 61, m at next level, right associativity).
Notation "' pat <- m ;; k" := (bind m (fun x => match x with pat => k end))
  (at level 61, pat pattern, m at next level, right associativity).

(** ** The tensor operations the reducer uses *)

(** [torch.zeros(n, dtype=dt)] *)
Definition zeros (n : nat) (dt : Dtype) : Tensor :=
  {| data := repeat 0%Q n; tensor_dtype := dt; requires_grad := false |}.

(** [torch.zeros_like(p)] *)
Definition zeros_like (p : Param) : Tensor := zeros (numel p) (dtype p).

(** The scalar of [t.div_(world_size)]. *)
Definition scale (world_size : nat) (x : Q) : Q :=
  (x / inject_Z (Z.of_nat world_size))%Q.

(** [t.div_(world_size)]: in place, on every element. *)
Definition div_ (t : Tensor) (world_size : nat) : Tensor :=
  {| data := map (scale world_size) (data t);
     tensor_dtype := tensor_dtype t;
     requires_grad := requires_grad t |}.

(** [t[offset:end]], flat. *)
Definition slice (l : list Q) (offset end_ : nat) : list Q :=
  firstn (end_ - offset) (skipn offset l).

(** [buffer[offset:end].copy_(src)]: the elements of the slice are replaced
    by those of [src]; the other elements and the attributes of [buffer]
    stay. *)
Definition copy_slice (buffer : Tensor) (offset end_ : nat) (src : list Q) : Tensor :=
  {| data := firstn offset (data buffer) ++ src ++ skipn end_ (data buffer);
     tensor_dtype := tensor_dtype buffer;
     requires_grad := requires_grad buffer |}.

(** [g.data.copy_(src)]: the elements of [g] are replaced, its attributes stay. *)
Definition copy_data (g : Tensor) (src : list Q) : Tensor :=
  {| data := src; tensor_dtype := tensor_dtype g; requires_grad := requires_grad g |}.

(** [l[i] = x] on the list of buffers (the buffer object [i] was mutated). *)
Fixpoint update_nth {A : Type} (l : list A) (i : nat) (x : A) : list A :=
  match l, i with
  | [], _ => []
  | _ :: l', 0 => x :: l'
  | y :: l', S i' => y :: update_nth l' i' x
  end.

(** ** Process groups and the transport *)

(** A process group: the default group, or a group with its mapping from
    group-local ranks to global ranks. *)
Inductive Group :=
| WORLD
| SubGroup (global_of : nat -> nat).

Definition _get_global_rank (group : Group) (rank : nat) : nat :=
  match group with
  | WORLD => rank
  | SubGroup global_of => global_of rank
  end.

(** The tensor object handed to [dist.reduce]. *)
Inductive TensorRef :=
| BufferRef (rank : nat)    (* the reduce buffer of [rank] *)
| GradRef (p : ParamId).    (* the gradient tensor of parameter [p] *)

(** The handle returned by [dist.reduce(tensor, dst, group, async_op=True)]. *)
Record Work := mkWork {
  work_tensor : TensorRef;
  work_dst : nat
}.

(** What the elements of the local tensor of a collective are once the
    collective has completed. *)
Definition Transport := Work -> list Q -> list Q.

(** ** [ModelDispatch._reduce_grads_task] *)

(** The state the task works on: the parameters' store, the reduce buffers
    of the device, and the two local lists of pending operations. *)
Record TaskState := mkTaskState {
  st_store : Store;
  st_buffers : list Tensor;
  bucket_requests : list (Work * nat);
  requests : list Work
}.

(** Lines 104-106: [for p in params: if p.grad is None: p.grad = torch.zeros_like(p)]. *)
Fixpoint fill_grads (s : Store) (params : list ParamId) : Store :=
  match params with
  | [] => s
  | p :: params' =>
      match grad (s p) with
      | None => fill_grads (set_grad s p (zeros_like (s p))) params'
      | Some _ => fill_grads s params'
      end
  end.

(** Lines 115-119, the packing loop.  [rest] is [params[i_bucketed:]]; the
    result is the final [i_bucketed], the final [offset] and the buffer. *)
Fixpoint pack_loop (s : Store) (buffer_size : nat) (rest : list ParamId)
    (i_bucketed offset : nat) (buffer : Tensor) : result (nat * nat * Tensor) :=
  match rest with
  | [] => Ok (i_bucketed, offset, buffer)
  | p :: rest' =>
      if offset + numel (s p) <? buffer_size then
        let end_ := offset + numel (s p) in
        match grad (s p) with
        | None => Raise AttributeError
        | Some g =>
            pack_loop s buffer_size rest' (S i_bucketed) end_
                      (copy_slice buffer offset end_ (data g))
        end
      else Ok (i_bucketed, offset, buffer)
  end.

(** Lines 131-137, the direct reduction of [params[i_bucketed:]]. *)
Fixpoint reduce_direct (world_size global_rank : nat) (ps : list ParamId)
    (s : Store) (reqs : list Work) : result (Store * list Work) :=
  match ps with
  | [] => Ok (s, reqs)
  | p :: ps' =>
      match grad (s p) with
      | None => Raise AttributeError
      | Some g =>
          if requires_grad g then Raise RuntimeError
          else reduce_direct world_size global_rank ps'
                 (set_grad s p (div_ g world_size))
                 (reqs ++ [mkWork (GradRef p) global_rank])
      end
  end.

(** Lines 100-137, the body of the loop over the ranks, for [rank], its
    parameter list [params] and its buffer. *)
Definition reduce_rank (group : Group) (world_size buffer_size : nat)
    (rank : nat) (params : list ParamId) (buffer : Tensor) (st : TaskState)
    : result TaskState :=
  if length params =? 0 then Ok st
  else
    let s := fill_grads (st_store st) params in
    let global_rank := _get_global_rank group rank in
    '(i_bucketed, offset, buffer) <- pack_loop s buffer_size params 0 0 buffer ;;
    let '(buffer, breqs) :=
      if 0 <? i_bucketed
      then (div_ buffer world_size,
            bucket_requests st ++ [(mkWork (BufferRef rank) global_rank, rank)])
      else (buffer, bucket_requests st) in
    '(s, reqs) <- reduce_direct world_size global_rank (skipn i_bucketed params)
                    s (requests st) ;;
    Ok {| st_store := s;
          st_buffers := update_nth (st_buffers st) rank buffer;
          bucket_requests := breqs;
          requests := reqs |}.

(** Line 99, [for (rank, params), buffer in zip(enumerate(per_rank_params), buffers)],
    from [rank] on.  The loop ends with the shorter of the two sequences. *)
Fixpoint reduce_ranks (group : Group) (world_size buffer_size : nat)
    (rank : nat) (per_rank_params : list (list ParamId)) (st : TaskState)
    : result TaskState :=
  match per_rank_params with
  | [] => Ok st
  | params :: rest =>
      match nth_error (st_buffers st) rank with
      | None => Ok st
      | Some buffer =>
          st' <- reduce_rank group world_size buffer_size rank params buffer st ;;
          reduce_ranks group world_size buffer_size (S rank) rest st'
      end
  end.

(** [future.wait()]: the collective has completed, the local tensor holds
    what the transport left in it. *)
Definition wait (transport : Transport) (w : Work) (s : Store) (buffers : list Tensor)
    : Store * list Tensor :=
  match work_tensor w with
  | BufferRef r =>
      match nth_error buffers r with
      | Some b => (s, update_nth buffers r (copy_data b (transport w (data b))))
      | None => (s, buffers)
      end
  | GradRef p =>
      match grad (s p) with
      | Some g => (set_grad s p (copy_data g (transport w (data g))), buffers)
      | None => (s, buffers)
      end
  end.

(** Lines 149-153, the unpacking loop.  [rest] is [params[i_bucketed:]]. *)
Fixpoint unpack_loop (buffer_size : nat) (buffer : Tensor) (rest : list ParamId)
    (offset : nat) (s : Store) : result Store :=
  match rest with
  | [] => Ok s
  | p :: rest' =>
      if offset + numel (s p) <? buffer_size then
        let end_ := offset + numel (s p) in
        match grad (s p) with
        | None => Raise AttributeError
        | Some g =>
            unpack_loop buffer_size buffer rest' end_
              (set_grad s p (copy_data g (slice (data buffer) offset end_)))
        end
      else Ok s
  end.

(** Lines 140-153, the loop over [bucket_requests]. *)
Fixpoint wait_buckets (transport : Transport) (self_rank buffer_size : nat)
    (per_rank_params : list (list ParamId)) (breqs : list (Work * nat))
    (s : Store) (buffers : list Tensor) : result (Store * list Tensor) :=
  match breqs with
  | [] => Ok (s, buffers)
  | (future, rank) :: breqs' =>
      let '(s, buffers) := wait transport future s buffers in
      s <- (if rank =? self_rank then
              match nth_error per_rank_params rank, nth_error buffers rank with
              | Some params, Some buffer => unpack_loop buffer_size buffer params 0 s
              | _, _ => Raise IndexError
              end
            else Ok s) ;;
      wait_buckets transport self_rank buffer_size per_rank_params breqs' s buffers
  end.

(** Line 156, [list(map(lambda x: x.wait(), requests))]. *)
Fixpoint wait_all (transport : Transport) (reqs : list Work)
    (s : Store) (buffers : list Tensor) : Store * list Tensor :=
  match reqs with
  | [] => (s, buffers)
  | w :: reqs' =>
      let '(s, buffers) := wait transport w s buffers in
      wait_all transport reqs' s buffers
  end.

(** Lines 95-137: everything up to the last submission. *)
Definition submit_all (buffers : list Tensor) (per_rank_params : list (list ParamId))
    (group : Group) (world_size : nat) (s : Store) : result (nat * TaskState) :=
  match buffers with
  | [] => Raise IndexError
  | b0 :: _ =>
      let buffer_size := tensor_numel b0 in
      st <- reduce_ranks group world_size buffer_size 0 per_rank_params
              {| st_store := s; st_buffers := buffers;
                 bucket_requests := []; requests := [] |} ;;
      Ok (buffer_size, st)
  end.

(** The task.  It returns nothing in the source; here it returns the store
    and the buffers as it leaves them, with the handles it has submitted. *)
Definition _reduce_grads_task (transport : Transport)
    (buffers : list Tensor) (per_rank_params : list (list ParamId))
    (group : Group) (self_rank world_size : nat) (s : Store) : result TaskState :=
  '(buffer_size, st) <- submit_all buffers per_rank_params group world_size s ;;
  '(s, buffers) <- wait_buckets transport self_rank buffer_size per_rank_params
                     (bucket_requests st) (st_store st) (st_buffers st) ;;
  let '(s, buffers) := wait_all transport (requests st) s buffers in
  Ok {| st_store := s; st_buffers := buffers;
        bucket_requests := bucket_requests st; requests := requests st |}.

(** ** [ModelDispatch] *)

Inductive Device := cpu | cuda (index : nat).

Definition Device_eqb (a b : Device) : bool :=
  match a, b with
  | cpu, cpu => true
  | cuda i, cuda j => i =? j
  | _, _ => false
  end.

(** A Python [dict] keyed by devices, in insertion order. *)
Definition Dict (V : Type) := list (Device * V).

(** [d[k]] *)
Fixpoint dict_get {V : Type} (d : Dict V) (k : Device) : result V :=
  match d with
  | [] => Raise KeyError
  | (k', v) :: d' => if Device_eqb k' k then Ok v else dict_get d' k
  end.

(** [d[k] = v] *)
Fixpoint dict_set {V : Type} (d : Dict V) (k : Device) (v : V) : Dict V :=
  match d with
  | [] => [(k, v)]
  | (k', v') :: d' =>
      if Device_eqb k' k then (k', v) :: d' else (k', v') :: dict_set d' k v
  end.

(** The attributes of a [ModelDispatch] the reducer reads.  The base model
    is its list of parameters ([base_model.parameters()]); the sharded
    optimizer is its [per_device_params]. *)
Record ModelDispatch := mkModelDispatch {
  process_group : Group;
  base_model : list ParamId;
  per_device_params : Dict (list (list ParamId));
  rank : nat;
  world_size : nat;
  _reduce_buffers : Dict (list Tensor)
}.

(** [sum(p.numel() for p in params)] *)
Definition sum_numel (s : Store) (params : list ParamId) : nat :=
  fold_right (fun p acc => numel (s p) + acc) 0 params.

(** Lines 60-64, the loop over [per_device_params.items()].  [torch.zeros]
    refuses a negative size. *)
Fixpoint alloc_buffers (s : Store) (buffer_size : Z)
    (items : Dict (list (list ParamId))) (reduce_buffers : Dict (list Tensor))
    : result (Dict (list Tensor)) :=
  match items with
  | [] => Ok reduce_buffers
  | (device, per_device) :: items' =>
      match per_device with
      | (p :: _) :: _ =>
          let buffer_dtype := dtype (s p) in
          if (buffer_size <? 0)%Z then Raise RuntimeError
          else
            alloc_buffers s buffer_size items'
              (dict_set reduce_buffers device
                 (map (fun _ => zeros (Z.to_nat buffer_size) buffer_dtype) per_device))
      | _ => Raise IndexError
      end
  end.

(** [ModelDispatch.__init__].  [self_rank] and [group_size] are what
    [dist.get_rank] and [dist.get_world_size] answer for the group. *)
Definition ModelDispatch_init (s : Store) (base_model : list ParamId)
    (per_device_params : Dict (list (list ParamId))) (process_group : Group)
    (self_rank group_size : nat) (buffer_size : Z) : result ModelDispatch :=
  let buffer_size := Z.min buffer_size (Z.of_nat (sum_numel s base_model)) in
  reduce_buffers <- alloc_buffers s buffer_size per_device_params [] ;;
  Ok (mkModelDispatch process_group base_model per_device_params
        self_rank group_size reduce_buffers).

(** Lines 77-84, the loop over [per_device_params.items()] of
    [dispatch_grads].  Each device has its own collectives. *)
Fixpoint dispatch_devices (transport : Device -> Transport) (group : Group)
    (self_rank world_size : nat) (items : Dict (list (list ParamId)))
    (s : Store) (reduce_buffers : Dict (list Tensor))
    : result (Store * Dict (list Tensor)) :=
  match items with
  | [] => Ok (s, reduce_buffers)
  | (device, per_device) :: items' =>
      buffers <- dict_get reduce_buffers device ;;
      st <- _reduce_grads_task (transport device) buffers per_device
              group self_rank world_size s ;;
      dispatch_devices transport group self_rank world_size items'
        (st_store st) (dict_set reduce_buffers device (st_buffers st))
  end.

(** [ModelDispatch.dispatch_grads] *)
Definition dispatch_grads (transport : Device -> Transport) (self : ModelDispatch)
    (s : Store) : result (Store * ModelDispatch) :=
  '(s, reduce_buffers) <- dispatch_devices transport (process_group self)
                            (rank self) (world_size self)
                            (per_device_params self) s (_reduce_buffers self) ;;
  Ok (s, mkModelDispatch (process_group self) (base_model self)
           (per_device_params self) (rank self) (world_size self) reduce_buffers).

(** ** [sync_buffers], [sync_parameters], [wait] and [forward] *)

(** The handle returned by [dist.broadcast(x, src, group, async_op=True)],
    where [x] is the tensor at position [bcast_tensor] of the iterable
    ([base_model.buffers()] or [base_model.parameters()]). *)
Record BroadcastWork := mkBroadcastWork {
  bcast_tensor : nat;
  bcast_src : nat
}.

(** What the elements of the local tensor of a broadcast are once the
    broadcast has completed. *)
Definition BroadcastTransport := BroadcastWork -> list Q -> list Q.

(** [list(map(lambda x: dist.broadcast(x, src, group, async_op=True), tensors))]:
    one handle per tensor, in the order of the iterable. *)
Definition broadcast_all (src : nat) (tensors : list Tensor) : list BroadcastWork :=
  map (fun i => mkBroadcastWork i src) (seq 0 (length tensors)).

(** [x.wait()] for a broadcast handle. *)
Definition wait_broadcast (transport : BroadcastTransport) (tensors : list Tensor)
    (w : BroadcastWork) : list Tensor :=
  match nth_error tensors (bcast_tensor w) with
  | Some t =>
      update_nth tensors (bcast_tensor w) (copy_data t (transport w (data t)))
  | None => tensors
  end.

(** [ModelDispatch.wait], lines 184-192: [None] and the empty list are
    falsy; it returns nothing. *)
Definition ModelDispatch_wait (transport : BroadcastTransport)
    (requests : option (list BroadcastWork)) (tensors : list Tensor) : list Tensor :=
  match requests with
  | None => tensors
  | Some [] => tensors
  | Some (w :: ws) => fold_left (wait_broadcast transport) (w :: ws) tensors
  end.

(** The body shared by [sync_buffers] (lines 158-169) and [sync_parameters]
    (lines 171-182): the result of the call and the tensors as it leaves
    them. *)
Definition sync_tensors (transport : BroadcastTransport)
    (reference_global_rank : nat) (non_blocking : bool) (tensors : list Tensor)
    : option (list BroadcastWork) * list Tensor :=
  let requests := broadcast_all reference_global_rank tensors in
  if non_blocking then (Some requests, tensors)
  else (None, ModelDispatch_wait transport (Some requests) tensors).

(** [ModelDispatch.sync_buffers], on [base_model.buffers()]. *)
Definition sync_buffers (transport : BroadcastTransport)
    (reference_global_rank : nat) (non_blocking : bool) (buffers : list Tensor)
    : option (list BroadcastWork) * list Tensor :=
  sync_tensors transport reference_global_rank non_blocking buffers.

(** [ModelDispatch.sync_parameters], on [base_model.parameters()]. *)
Definition sync_parameters (transport : BroadcastTransport)
    (reference_global_rank : nat) (non_blocking : bool) (parameters : list Tensor)
    : option (list BroadcastWork) * list Tensor :=
  sync_tensors transport reference_global_rank non_blocking parameters.

(** [ModelDispatch.forward], lines 66-70.  The base model is a function of
    its inputs and of its buffers, which it may update; [inputs] is always a
    tuple, so the result is the tuple of the one output. *)
Definition forward {I O : Type} (transport : BroadcastTransport)
    (reference_global_rank : nat) (broadcast_buffers : bool)
    (base_model_forward : I -> list Tensor -> O * list Tensor)
    (inputs : I) (buffers : list Tensor) : list O * list Tensor :=
  let buffers :=
    if broadcast_buffers && (0 <? length buffers)
    then snd (sync_buffers transport reference_global_rank false buffers)
    else buffers in
  let '(output, buffers) := base_model_forward inputs buffers in
  ([output], buffers).

(** [dist.broadcast] as the rank [self_global_rank] sees it: the tensor of
    the source rank stays, the tensor of another rank receives the elements
    of the tensor of the source at the same position. *)
Definition broadcast_transport (self_global_rank : nat) (source_tensors : list Tensor)
    : BroadcastTransport :=
  fun w local =>
    if bcast_src w =? self_global_rank then local
    else match nth_error source_tensors (bcast_tensor w) with
         | Some t => data t
         | None => local
         end.

(** ** The vocabulary of the properties *)

(** The gradient a parameter has once line 106 has run on it. *)
Definition filled (p : Param) : Tensor :=
  match grad p with
  | Some g => g
  | None => zeros_like p
  end.

(** Every gradient has the shape of its parameter (an invariant of
    [torch.Tensor.grad]). *)
Definition wf_store (s : Store) : Prop :=
  forall p g, grad (s p) = Some g -> length (data g) = numel (s p).

(** The flat gradients of a list of parameters, one after the other. *)
Definition flat_grads (s : Store) (params : list ParamId) : list Q :=
  concat (map (fun p => data (filled (s p))) params).

(** The number of parameters of [rest] the packing loop packs from [offset]
    on: the test of line 115 alone, without the copies. *)
Fixpoint bucket_len (s : Store) (buffer_size : nat) (rest : list ParamId)
    (offset : nat) : nat :=
  match rest with
  | [] => 0
  | p :: rest' =>
      if offset + numel (s p) <? buffer_size
      then S (bucket_len s buffer_size rest' (offset + numel (s p)))
      else 0
  end.

(** Whether the gradient of [p] is marked as requiring differentiation. *)
Definition grad_requires_grad (s : Store) (p : ParamId) : bool :=
  match grad (s p) with
  | Some g => requires_grad g
  | None => false
  end.

(** The handles of the direct reduction of [ps] towards [global_rank]. *)
Definition direct_works (global_rank : nat) (ps : list ParamId) : list Work :=
  map (fun p => mkWork (GradRef p) global_rank) ps.

(** The bucket handle of a rank, if it packed anything. *)
Definition bucket_works (group : Group) (rank i_bucketed : nat) : list (Work * nat) :=
  if 0 <? i_bucketed
  then [(mkWork (BufferRef rank) (_get_global_rank group rank), rank)]
  else [].

(** The elements of the buffer of a rank when its iteration ends. *)
Definition bucket_data (s : Store) (ws buffer_size : nat) (params : list ParamId)
    (old : list Q) : list Q :=
  let k := bucket_len s buffer_size params 0 in
  if 0 <? k
  then map (scale ws)
           (flat_grads s (firstn k params)
            ++ skipn (sum_numel s (firstn k params)) old)
  else old.

(** Whether the direct reduction of a rank meets a marked gradient. *)
Definition suffix_flagged (s : Store) (buffer_size : nat) (params : list ParamId) : bool :=
  existsb (grad_requires_grad s) (skipn (bucket_len s buffer_size params 0) params).

(** Two stores with the same parameters: sizes, types and the marks of the
    gradients agree, and the second store has every gradient the first has. *)
Record same_shape (s s' : Store) : Prop := {
  shape_numel : forall q, numel (s' q) = numel (s q);
  shape_dtype : forall q, dtype (s' q) = dtype (s q);
  shape_flag : forall q, grad_requires_grad s' q = grad_requires_grad s q;
  shape_present : forall q, grad (s q) <> None -> grad (s' q) <> None
}.


(** The bucket handles of the ranks from [rank] on, in the order of their
    submission. *)
Fixpoint all_bucket_works (group : Group) (s : Store) (buffer_size rank : nat)
    (per_rank_params : list (list ParamId)) : list (Work * nat) :=
  match per_rank_params with
  | [] => []
  | params :: rest =>
      bucket_works group rank (bucket_len s buffer_size params 0)
      ++ all_bucket_works group s buffer_size (S rank) rest
  end.

(** The handles of the direct reductions of the ranks from [rank] on. *)
Fixpoint all_direct_works (group : Group) (s : Store) (buffer_size rank : nat)
    (per_rank_params : list (list ParamId)) : list Work :=
  match per_rank_params with
  | [] => []
  | params :: rest =>
      direct_works (_get_global_rank group rank)
                   (skipn (bucket_len s buffer_size params 0) params)
      ++ all_direct_works group s buffer_size (S rank) rest
  end.

(** The state in which the task starts its loop over the ranks. *)
Definition initial_state (s : Store) (buffers : list Tensor) : TaskState :=
  {| st_store := s; st_buffers := buffers; bucket_requests := []; requests := [] |}.


(** The buffers the constructor allocates for a device of the partition. *)
Definition device_buffers (s : Store) (buffer_size : Z)
    (per_device : list (list ParamId)) (p : ParamId) : list Tensor :=
  map (fun _ => zeros (Z.to_nat buffer_size) (dtype (s p))) per_device.


(** ** The group of ranks *)

(** Elementwise sum of two flat tensors. *)
Fixpoint vadd (l1 l2 : list Q) : list Q :=
  match l1, l2 with
  | x :: l1', y :: l2' => (x + y)%Q :: vadd l1' l2'
  | _, _ => []
  end.

(** The elements of the tensor a handle refers to, in the state of a rank. *)
Definition tensor_data (st : TaskState) (t : TensorRef) : list Q :=
  match t with
  | BufferRef r =>
      match nth_error (st_buffers st) r with
      | Some b => data b
      | None => []
      end
  | GradRef p =>
      match grad (st_store st p) with
      | Some g => data g
      | None => []
      end
  end.

(** [dist.reduce] as the rank [self_global_rank] sees it: at the destination
    the local tensor receives the sum of the tensors of all the ranks, its
    own and those of its peers, taken in the state in which each peer has
    submitted the collective; at the other ranks the local tensor stays. *)
Definition reduce_transport (self_global_rank : nat) (peers : list TaskState)
    : Transport :=
  fun w local =>
    if work_dst w =? self_global_rank
    then fold_left vadd (map (fun st => tensor_data st (work_tensor w)) peers) local
    else local.

(** The transport of a group of one rank: the local tensor is the result. *)
Definition alone : Transport := fun _ l => l.



(** ** Inputs of the examples *)

(** Scenario A: parameters of 10, 20 and 5000 elements, no gradient yet. *)
Definition scenario_A_store : Store :=
  fun p => match p with
           | 0 => mkParam 10 float32 None
           | 1 => mkParam 20 float32 None
           | 2 => mkParam 5000 float32 None
           | _ => mkParam 0 float32 None
           end.

(** Three parameters of 1, 2 and 3 elements; the second has no gradient. *)
Definition small_store : Store :=
  fun p => match p with
           | 0 => mkParam 1 float32 (Some (mkTensor [4%Q] float32 false))
           | 1 => mkParam 2 float32 None
           | 2 => mkParam 3 float32 (Some (mkTensor [1%Q; 2%Q; 3%Q] float32 false))
           | _ => mkParam 0 float32 None
           end.

(** A store for the examples of a marked gradient: parameter 0 has three
    elements and a gradient that requires differentiation. *)
Definition marked_store : Store :=
  fun p => match p with
           | 0 => mkParam 3 float32 (Some (mkTensor [1%Q; 2%Q; 3%Q] float32 true))
           | _ => mkParam 0 float32 None
           end.

(** Two parameters on two devices. *)
Definition two_device_store : Store :=
  fun p => match p with
           | 0 => mkParam 10 float32 None
           | 1 => mkParam 20 float32 None
           | _ => mkParam 0 float32 None
           end.

(** Two parameters of different types on one device. *)
Definition mixed_dtype_store : Store :=
  fun p => match p with
           | 0 => mkParam 10 float32 None
           | 1 => mkParam 20 float16 None
           | _ => mkParam 0 float32 None
           end.

(** The store of the peer in the examples of two ranks. *)
Definition peer_store : Store :=
  fun p => match p with
           | 0 => mkParam 1 float32 (Some (mkTensor [6%Q] float32 false))
           | 1 => mkParam 2 float32 (Some (mkTensor [2%Q; 4%Q] float32 false))
           | 2 => mkParam 3 float32 None
           | _ => mkParam 0 float32 None
           end.

(** A partition over two ranks: rank 0 owns parameter 0, rank 1 owns
    parameters 1 and 2. *)
Definition two_rank_params : list (list ParamId) := [[0]; [1; 2]].

(** One buffer of capacity 5 per rank. *)
Definition two_rank_buffers : list Tensor := [zeros 5 float32; zeros 5 float32].

(** The state of the peer once it has submitted its collectives. *)
Definition peer_submitted : TaskState :=
  match submit_all two_rank_buffers two_rank_params WORLD 2 peer_store with
  | Ok (_, st) => st
  | Raise _ => initial_state peer_store two_rank_buffers
  end.

(** The state in which rank 1 leaves the task. *)
Definition two_rank_final : TaskState :=
  match _reduce_grads_task (reduce_transport 1 [peer_submitted])
          two_rank_buffers two_rank_params WORLD 1 2 small_store with
  | Ok st => st
  | Raise _ => initial_state small_store two_rank_buffers
  end.

(** * Properties *)

(** ** The store *)

Lemma set_grad_eq (s : Store) (p : ParamId) (g : Tensor) :
  grad (set_grad s p g p) = Some g.
Proof. unfold set_grad. now rewrite Nat.eqb_refl. Qed.

Lemma set_grad_neq (s : Store) (p q : ParamId) (g : Tensor) :
  q <> p -> set_grad s p g q = s q.
Proof.
  intros H. unfold set_grad.
  destruct (Nat.eqb_spec q p); [contradiction | reflexivity].
Qed.

Lemma numel_set_grad (s : Store) (p q : ParamId) (g : Tensor) :
  numel (set_grad s p g q) = numel (s q).
Proof.
  unfold set_grad. destruct (Nat.eqb_spec q p); [now subst | reflexivity].
Qed.

Lemma dtype_set_grad (s : Store) (p q : ParamId) (g : Tensor) :
  dtype (set_grad s p g q) = dtype (s q).
Proof.
  unfold set_grad. destruct (Nat.eqb_spec q p); [now subst | reflexivity].
Qed.

Lemma numel_fill_grads (params : list ParamId) (s : Store) (q : ParamId) :
  numel (fill_grads s params q) = numel (s q).
Proof.
  revert s. induction params as [|p params IH]; intros s; simpl; [reflexivity|].
  destruct (grad (s p)); rewrite IH; [reflexivity | apply numel_set_grad].
Qed.

Lemma dtype_fill_grads (params : list ParamId) (s : Store) (q : ParamId) :
  dtype (fill_grads s params q) = dtype (s q).
Proof.
  revert s. induction params as [|p params IH]; intros s; simpl; [reflexivity|].
  destruct (grad (s p)); rewrite IH; [reflexivity | apply dtype_set_grad].
Qed.

Lemma filled_set_zeros (s : Store) (p q : ParamId) :
  grad (s p) = None ->
  filled (set_grad s p (zeros_like (s p)) q) = filled (s q).
Proof.
  intros H. destruct (Nat.eq_dec q p) as [->|Hne].
  - unfold filled. now rewrite set_grad_eq, H.
  - now rewrite set_grad_neq.
Qed.

Lemma grad_fill_grads (params : list ParamId) (s : Store) (q : ParamId) :
  grad (fill_grads s params q) =
  if in_dec Nat.eq_dec q params then Some (filled (s q)) else grad (s q).
Proof.
  revert s. induction params as [|p params IH]; intros s; simpl; [reflexivity|].
  destruct (grad (s p)) as [g|] eqn:Hg; rewrite IH.
  - destruct (Nat.eq_dec p q) as [->|Hne].
    + destruct (in_dec Nat.eq_dec q params); [reflexivity|].
      unfold filled. now rewrite Hg.
    + destruct (in_dec Nat.eq_dec q params); reflexivity.
  - rewrite filled_set_zeros by assumption.
    destruct (Nat.eq_dec p q) as [->|Hne].
    + destruct (in_dec Nat.eq_dec q params); [reflexivity|].
      rewrite set_grad_eq. unfold filled. now rewrite Hg.
    + destruct (in_dec Nat.eq_dec q params); [reflexivity|].
      rewrite set_grad_neq by congruence. reflexivity.
Qed.

Lemma grad_fill_grads_in (params : list ParamId) (s : Store) (q : ParamId) :
  In q params -> grad (fill_grads s params q) = Some (filled (s q)).
Proof.
  intros H. rewrite grad_fill_grads.
  destruct (in_dec Nat.eq_dec q params); [reflexivity | contradiction].
Qed.

Lemma grad_fill_grads_notin (params : list ParamId) (s : Store) (q : ParamId) :
  ~ In q params -> fill_grads s params q = s q.
Proof.
  revert s. induction params as [|p params IH]; intros s H; simpl; [reflexivity|].
  assert (q <> p) by (intros ->; apply H; now left).
  assert (~ In q params) by (intros Hin; apply H; now right).
  destruct (grad (s p)); rewrite IH by assumption; [reflexivity|].
  now apply set_grad_neq.
Qed.

Lemma length_filled (s : Store) (p : ParamId) :
  wf_store s -> length (data (filled (s p))) = numel (s p).
Proof.
  intros Hwf. unfold filled. destruct (grad (s p)) as [g|] eqn:Hg.
  - now apply Hwf.
  - simpl. apply repeat_length.
Qed.

Lemma wf_fill_grads (params : list ParamId) (s : Store) :
  wf_store s -> wf_store (fill_grads s params).
Proof.
  intros Hwf q g. rewrite grad_fill_grads, numel_fill_grads.
  destruct (in_dec Nat.eq_dec q params).
  - intros [= <-]. now apply length_filled.
  - apply Hwf.
Qed.

(** ** The packing loop *)


Lemma length_flat_grads (s : Store) (params : list ParamId) :
  wf_store s -> length (flat_grads s params) = sum_numel s params.
Proof.
  intros Hwf. unfold flat_grads.
  induction params as [|p params IH]; simpl; [reflexivity|].
  now rewrite length_app, IH, length_filled.
Qed.

Lemma copy_slice_then (b g x : list Q) (offset n m : nat) :
  length g = n -> offset <= length b ->
  firstn (offset + n) (firstn offset b ++ g ++ skipn (offset + n) b) ++ x
    ++ skipn (offset + n + m) (firstn offset b ++ g ++ skipn (offset + n) b)
  = firstn offset b ++ (g ++ x) ++ skipn (offset + (n + m)) b.
Proof.
  intros Hg Hoff.
  assert (Hl : length (firstn offset b ++ g) = offset + n).
  { rewrite length_app, length_firstn. lia. }
  rewrite (app_assoc (firstn offset b) g).
  rewrite firstn_app, Hl, Nat.sub_diag, firstn_O, app_nil_r.
  rewrite firstn_all2 by lia.
  rewrite skipn_app, Hl.
  rewrite (skipn_all2 (firstn offset b ++ g)) by lia.
  rewrite skipn_skipn. simpl.
  rewrite <- !app_assoc.
  do 3 f_equal. f_equal. lia.
Qed.

Lemma bucket_len_le (s : Store) (buffer_size : nat) (rest : list ParamId) :
  forall offset, bucket_len s buffer_size rest offset <= length rest.
Proof.
  induction rest as [|p rest IH]; intros offset; simpl; [lia|].
  destruct (_ <? _); [|lia]. specialize (IH (offset + numel (s p))). lia.
Qed.

(** The number of packed parameters is a matter of the sizes only. *)
Lemma bucket_len_ext (s s' : Store) (buffer_size : nat) (rest : list ParamId) :
  (forall p, numel (s' p) = numel (s p)) ->
  forall offset, bucket_len s' buffer_size rest offset
                 = bucket_len s buffer_size rest offset.
Proof.
  intros H. induction rest as [|p rest IH]; intros offset; simpl; [reflexivity|].
  now rewrite H, IH.
Qed.

Lemma sum_numel_ext (s s' : Store) (params : list ParamId) :
  (forall p, numel (s' p) = numel (s p)) ->
  sum_numel s' params = sum_numel s params.
Proof.
  intros H. induction params as [|p l IH]; simpl; [reflexivity|]. now rewrite H, IH.
Qed.

(** Each packed parameter ends below the capacity. *)
Lemma bucket_len_below (s : Store) (buffer_size : nat) (rest : list ParamId) :
  forall offset j,
    j < bucket_len s buffer_size rest offset ->
    offset + sum_numel s (firstn (S j) rest) < buffer_size.
Proof.
  induction rest as [|p rest IH]; intros offset j Hj; simpl in Hj; [lia|].
  destruct (Nat.ltb_spec (offset + numel (s p)) buffer_size) as [Hlt|Hge]; [|lia].
  destruct j as [|j].
  - simpl. lia.
  - specialize (IH (offset + numel (s p)) j ltac:(lia)).
    change (firstn (S (S j)) (p :: rest)) with (p :: firstn (S j) rest).
    change (sum_numel s (p :: firstn (S j) rest))
      with (numel (s p) + sum_numel s (firstn (S j) rest)).
    lia.
Qed.

(** The first parameter that is not packed does not pass the test. *)
Lemma bucket_len_stop (s : Store) (buffer_size : nat) (rest : list ParamId) :
  forall offset p,
    nth_error rest (bucket_len s buffer_size rest offset) = Some p ->
    buffer_size
    <= offset + sum_numel s (firstn (bucket_len s buffer_size rest offset) rest)
       + numel (s p).
Proof.
  induction rest as [|q rest IH]; intros offset p; simpl; [discriminate|].
  destruct (Nat.ltb_spec (offset + numel (s q)) buffer_size) as [Hlt|Hge]; simpl.
  - intros H. apply IH in H. lia.
  - intros [= <-]. lia.
Qed.

(** The final offset is within the capacity. *)
Lemma bucket_len_offset (s : Store) (buffer_size : nat) (params : list ParamId) :
  sum_numel s (firstn (bucket_len s buffer_size params 0) params) <= buffer_size.
Proof.
  destruct (bucket_len s buffer_size params 0) as [|j] eqn:Hk.
  - simpl. lia.
  - pose proof (bucket_len_below s buffer_size params 0 j) as H.
    rewrite Hk in H. specialize (H ltac:(lia)). lia.
Qed.

(** The loop as a whole: from [i_bucketed] and [offset], on the rest of the
    list, it packs [bucket_len] more parameters and leaves in the buffer the
    gradients it packed, in the order of the list. *)
Lemma pack_loop_spec (s : Store) (buffer_size : nat) (rest : list ParamId) :
  forall (i_bucketed offset : nat) (buffer : Tensor),
    (forall p, In p rest -> grad (s p) <> None) ->
    let k := bucket_len s buffer_size rest offset in
    exists buffer',
      pack_loop s buffer_size rest i_bucketed offset buffer
      = Ok (i_bucketed + k, offset + sum_numel s (firstn k rest), buffer')
      /\ tensor_dtype buffer' = tensor_dtype buffer
      /\ requires_grad buffer' = requires_grad buffer
      /\ (wf_store s -> offset <= tensor_numel buffer ->
          data buffer'
          = firstn offset (data buffer) ++ flat_grads s (firstn k rest)
            ++ skipn (offset + sum_numel s (firstn k rest)) (data buffer)).
Proof.
  induction rest as [|p rest IH]; intros i offset buffer Hg.
  - exists buffer. simpl. rewrite !Nat.add_0_r.
    repeat split. intros _ _. now rewrite firstn_skipn.
  - simpl. destruct (Nat.ltb_spec (offset + numel (s p)) buffer_size) as [Hlt|Hge].
    + destruct (grad (s p)) as [g|] eqn:Hgp;
        [|exfalso; apply (Hg p); [now left | assumption]].
      destruct (IH (S i) (offset + numel (s p))
                  (copy_slice buffer offset (offset + numel (s p)) (data g)))
        as (b' & Heq & Hdt & Hrg & Hdata).
      { intros q Hq. apply Hg. now right. }
      exists b'. simpl.
      replace (i + S (bucket_len s buffer_size rest (offset + numel (s p))))
        with (S i + bucket_len s buffer_size rest (offset + numel (s p))) by lia.
      rewrite Nat.add_assoc.
      repeat split; try assumption.
      intros Hwf Hoff.
      assert (Hlen : length (data g) = numel (s p)) by now apply Hwf.
      unfold tensor_numel in Hoff.
      rewrite Hdata; [|assumption|].
      2:{ unfold tensor_numel, copy_slice; simpl.
          rewrite !length_app, length_firstn, Hlen. lia. }
      unfold copy_slice; simpl.
      rewrite copy_slice_then by assumption.
      unfold flat_grads. simpl. unfold filled at 2. rewrite Hgp.
      f_equal. f_equal. f_equal. lia.
    + exists buffer. simpl. rewrite !Nat.add_0_r.
      repeat split. intros _ _. now rewrite firstn_skipn.
Qed.

(** ** The direct reduction *)

Lemma grad_requires_grad_set_div (s : Store) (p q : ParamId) (g : Tensor) (ws : nat) :
  grad (s p) = Some g ->
  grad_requires_grad (set_grad s p (div_ g ws)) q = grad_requires_grad s q.
Proof.
  intros Hg. unfold grad_requires_grad.
  destruct (Nat.eq_dec q p) as [->|Hne].
  - now rewrite set_grad_eq, Hg.
  - now rewrite set_grad_neq.
Qed.

(** The direct reduction raises exactly when one of its gradients is marked,
    and then it raises [RuntimeError]. *)
Lemma reduce_direct_raises (ws global_rank : nat) (ps : list ParamId) :
  forall (s : Store) (reqs : list Work),
    (forall p, In p ps -> grad (s p) <> None) ->
    (exists p, In p ps /\ grad_requires_grad s p = true) ->
    reduce_direct ws global_rank ps s reqs = Raise RuntimeError.
Proof.
  induction ps as [|p ps IH]; intros s reqs Hg (q & Hq & Hflag).
  - destruct Hq.
  - simpl. destruct (grad (s p)) as [g|] eqn:Hgp;
      [|exfalso; apply (Hg p); [now left | assumption]].
    destruct (requires_grad g) eqn:Hr; [reflexivity|].
    apply IH.
    + intros x Hx. destruct (Nat.eq_dec x p) as [->|Hne].
      * rewrite set_grad_eq. discriminate.
      * rewrite set_grad_neq by assumption. apply Hg. now right.
    + exists q. rewrite grad_requires_grad_set_div by assumption.
      split; [|assumption].
      destruct Hq as [<-|Hq]; [|assumption].
      unfold grad_requires_grad in Hflag. rewrite Hgp in Hflag. congruence.
Qed.

Lemma reduce_direct_ok (ws global_rank : nat) (ps : list ParamId) :
  forall (s : Store) (reqs : list Work),
    (forall p, In p ps -> grad (s p) <> None) ->
    (forall p, In p ps -> grad_requires_grad s p = false) ->
    exists s',
      reduce_direct ws global_rank ps s reqs
      = Ok (s', reqs ++ direct_works global_rank ps).
Proof.
  induction ps as [|p ps IH]; intros s reqs Hg Hflag.
  - exists s. simpl. now rewrite app_nil_r.
  - simpl. destruct (grad (s p)) as [g|] eqn:Hgp;
      [|exfalso; apply (Hg p); [now left | assumption]].
    assert (Hr : requires_grad g = false).
    { specialize (Hflag p (or_introl eq_refl)).
      unfold grad_requires_grad in Hflag. now rewrite Hgp in Hflag. }
    rewrite Hr.
    destruct (IH (set_grad s p (div_ g ws))
                 (reqs ++ [mkWork (GradRef p) global_rank])) as (s' & Hs').
    + intros x Hx. destruct (Nat.eq_dec x p) as [->|Hne].
      * rewrite set_grad_eq. discriminate.
      * rewrite set_grad_neq by assumption. apply Hg. now right.
    + intros x Hx. rewrite grad_requires_grad_set_div by assumption.
      apply Hflag. now right.
    + exists s'. rewrite Hs'. now rewrite <- app_assoc.
Qed.

(** What a completed direct reduction has done: one handle per parameter,
    in the order of the list; sizes and types stay; a parameter outside the
    list is not touched; a parameter that occurs once in the list has its
    gradient divided once. *)
Lemma reduce_direct_inv (ws global_rank : nat) (ps : list ParamId) :
  forall (s s' : Store) (reqs reqs' : list Work),
    reduce_direct ws global_rank ps s reqs = Ok (s', reqs') ->
    reqs' = reqs ++ direct_works global_rank ps
    /\ (forall q, numel (s' q) = numel (s q))
    /\ (forall q, dtype (s' q) = dtype (s q))
    /\ (forall q, ~ In q ps -> s' q = s q)
    /\ (forall q, In q ps -> grad_requires_grad s q = false)
    /\ (forall q, grad (s q) <> None -> grad (s' q) <> None)
    /\ (forall q, grad_requires_grad s' q = grad_requires_grad s q)
    /\ (NoDup ps ->
        forall q g, In q ps -> grad (s q) = Some g ->
                    grad (s' q) = Some (div_ g ws)).
Proof.
  induction ps as [|p ps IH]; intros s s' reqs reqs' H; simpl in H.
  - injection H as <- <-. rewrite app_nil_r.
    repeat split; try reflexivity; try (intros; contradiction).
    intros q Hq. exact Hq.
  - destruct (grad (s p)) as [g|] eqn:Hgp; [|discriminate].
    destruct (requires_grad g) eqn:Hr; [discriminate|].
    apply IH in H.
    destruct H as (Hreq & Hnum & Hdt & Hout & Hflag & Hpres & Hkeep & Hin).
    repeat split.
    + rewrite Hreq, <- app_assoc. reflexivity.
    + intros q. rewrite Hnum. apply numel_set_grad.
    + intros q. rewrite Hdt. apply dtype_set_grad.
    + intros q Hq. rewrite Hout by (intros Hx; apply Hq; now right).
      apply set_grad_neq. intros ->. apply Hq. now left.
    + intros q [<-|Hq].
      * unfold grad_requires_grad. now rewrite Hgp.
      * rewrite <- (grad_requires_grad_set_div s p q g ws) by assumption.
        now apply Hflag.
    + intros q Hq. apply Hpres.
      destruct (Nat.eq_dec q p) as [->|Hne].
      * rewrite set_grad_eq. discriminate.
      * now rewrite set_grad_neq.
    + intros q. rewrite Hkeep. now apply grad_requires_grad_set_div.
    + intros Hnd q g' Hq Hg'. inversion Hnd as [|? ? Hnotin Hnd']; subst.
      destruct Hq as [<-|Hq].
      * rewrite Hout by assumption. rewrite set_grad_eq. congruence.
      * apply Hin; [assumption..|].
        rewrite set_grad_neq; [assumption|]. intros ->. contradiction.
Qed.

(** ** One iteration of the loop over the ranks *)

Lemma requires_grad_filled (s : Store) (p : ParamId) :
  requires_grad (filled (s p)) = grad_requires_grad s p.
Proof. unfold filled, grad_requires_grad. now destruct (grad (s p)). Qed.

Lemma grad_requires_grad_fill (params : list ParamId) (s : Store) (q : ParamId) :
  grad_requires_grad (fill_grads s params) q = grad_requires_grad s q.
Proof.
  unfold grad_requires_grad at 1. rewrite grad_fill_grads.
  destruct (in_dec Nat.eq_dec q params).
  - apply requires_grad_filled.
  - reflexivity.
Qed.

Lemma filled_fill_grads (params : list ParamId) (s : Store) (q : ParamId) :
  filled (fill_grads s params q) = filled (s q).
Proof.
  destruct (in_dec Nat.eq_dec q params) as [Hin|Hout].
  - unfold filled at 1. now rewrite grad_fill_grads_in.
  - now rewrite grad_fill_grads_notin.
Qed.

Lemma flat_grads_ext (s s' : Store) (params : list ParamId) :
  (forall p, In p params -> filled (s' p) = filled (s p)) ->
  flat_grads s' params = flat_grads s params.
Proof.
  intros H. unfold flat_grads. f_equal. apply map_ext_in.
  intros p Hp. now rewrite H.
Qed.

Lemma update_nth_same {A : Type} (l : list A) (i : nat) (x : A) :
  nth_error l i = Some x -> update_nth l i x = l.
Proof.
  revert i. induction l as [|y l IH]; intros [|i]; simpl; try discriminate.
  - now intros [= ->].
  - intros H. now rewrite IH.
Qed.

Lemma length_update_nth {A : Type} (l : list A) (i : nat) (x : A) :
  length (update_nth l i x) = length l.
Proof.
  revert i. induction l as [|y l IH]; intros [|i]; simpl; try reflexivity.
  now rewrite IH.
Qed.

Lemma nth_error_update_nth_eq {A : Type} (l : list A) (i : nat) (x : A) :
  i < length l -> nth_error (update_nth l i x) i = Some x.
Proof.
  revert i. induction l as [|y l IH]; intros [|i]; simpl; try lia; try reflexivity.
  intros H. apply IH. lia.
Qed.

Lemma nth_error_update_nth_neq {A : Type} (l : list A) (i j : nat) (x : A) :
  i <> j -> nth_error (update_nth l i x) j = nth_error l j.
Proof.
  revert i j. induction l as [|y l IH]; intros [|i] [|j] H; simpl;
    try reflexivity; try contradiction.
  apply IH. congruence.
Qed.

Lemma in_firstn_in {A : Type} (l : list A) (n : nat) (x : A) :
  In x (firstn n l) -> In x l.
Proof. intros H. rewrite <- (firstn_skipn n l). apply in_or_app. now left. Qed.

Lemma in_skipn_in {A : Type} (l : list A) (n : nat) (x : A) :
  In x (skipn n l) -> In x l.
Proof. intros H. rewrite <- (firstn_skipn n l). apply in_or_app. now right. Qed.

Lemma NoDup_firstn_skipn {A : Type} (l : list A) (n : nat) (x : A) :
  NoDup l -> In x (firstn n l) -> In x (skipn n l) -> False.
Proof.
  intros Hnd H1 H2. rewrite <- (firstn_skipn n l) in Hnd.
  revert Hnd H1 H2. generalize (firstn n l), (skipn n l).
  intros l1 l2 Hnd H1 H2. induction l1 as [|y l1 IH]; [destruct H1|].
  simpl in Hnd. inversion Hnd as [|? ? Hnotin Hnd']; subst.
  destruct H1 as [->|H1].
  - apply Hnotin. apply in_or_app. now right.
  - now apply IH.
Qed.

Lemma NoDup_skipn {A : Type} (l : list A) (n : nat) :
  NoDup l -> NoDup (skipn n l).
Proof.
  intros H. rewrite <- (firstn_skipn n l) in H.
  now apply NoDup_app_remove_l in H.
Qed.

(** What a completed iteration has done. *)
Lemma reduce_rank_inv (group : Group) (ws buffer_size rank : nat)
    (params : list ParamId) (buffer : Tensor) (st st' : TaskState) :
  nth_error (st_buffers st) rank = Some buffer ->
  reduce_rank group ws buffer_size rank params buffer st = Ok st' ->
  let s := st_store st in
  let k := bucket_len s buffer_size params 0 in
  bucket_requests st' = bucket_requests st ++ bucket_works group rank k
  /\ requests st'
     = requests st ++ direct_works (_get_global_rank group rank) (skipn k params)
  /\ (forall q, numel (st_store st' q) = numel (s q))
  /\ (forall q, dtype (st_store st' q) = dtype (s q))
  /\ (forall q, ~ In q params -> st_store st' q = s q)
  /\ (forall q, In q (skipn k params) -> grad_requires_grad s q = false)
  /\ (forall q, In q params -> grad (st_store st' q) <> None)
  /\ (forall q, grad (s q) <> None -> grad (st_store st' q) <> None)
  /\ (forall q, grad_requires_grad (st_store st') q = grad_requires_grad s q)
  /\ (NoDup params -> forall q, In q (firstn k params) ->
        grad (st_store st' q) = Some (filled (s q)))
  /\ (NoDup params -> forall q, In q (skipn k params) ->
        grad (st_store st' q) = Some (div_ (filled (s q)) ws))
  /\ exists buffer',
       st_buffers st' = update_nth (st_buffers st) rank buffer'
       /\ tensor_dtype buffer' = tensor_dtype buffer
       /\ requires_grad buffer' = requires_grad buffer
       /\ (wf_store s ->
           data buffer' = bucket_data s ws buffer_size params (data buffer)).
Proof.
  intros Hbuf H s k. unfold reduce_rank in H.
  destruct (Nat.eqb_spec (length params) 0) as [Hl|Hl].
  - apply length_zero_iff_nil in Hl. subst params.
    injection H as H. subst st' k. simpl.
    unfold bucket_works, direct_works. simpl. rewrite !app_nil_r.
    repeat split; try reflexivity; try (intros; contradiction); try (intros; assumption).
    exists buffer. rewrite update_nth_same by assumption.
    repeat split.
  - fold s in H.
    destruct (pack_loop_spec (fill_grads s params) buffer_size params 0 0 buffer)
      as (b' & Hpack & Hdt & Hrg & Hdata).
    { intros q Hq. rewrite grad_fill_grads_in by assumption. discriminate. }
    rewrite (bucket_len_ext s) in Hpack, Hdata
      by (intros; apply numel_fill_grads).
    rewrite (sum_numel_ext s) in Hpack, Hdata
      by (intros; apply numel_fill_grads).
    fold k in Hpack, Hdata.
    rewrite Hpack in H. simpl in H.
    destruct (reduce_direct ws (_get_global_rank group rank) (skipn k params)
                (fill_grads s params) (requests st)) as [[s1 reqs1]|e] eqn:Hdirect.
    2:{ destruct (0 <? k); discriminate. }
    apply reduce_direct_inv in Hdirect.
    destruct Hdirect as (Hreq & Hnum & Hdty & Hout & Hflag & Hpres & Hkeep & Hin).
    assert (Hst' : st' = {| st_store := s1;
                            st_buffers := update_nth (st_buffers st) rank
                                            (if 0 <? k then div_ b' ws else b');
                            bucket_requests := bucket_requests st
                                                 ++ bucket_works group rank k;
                            requests := reqs1 |}).
    { unfold bucket_works. destruct (0 <? k); simpl in H; injection H as <-;
        [reflexivity | now rewrite app_nil_r]. }
    subst st'. simpl. clear H.
    repeat split.
    + assumption.
    + intros q. rewrite Hnum. apply numel_fill_grads.
    + intros q. rewrite Hdty. apply dtype_fill_grads.
    + intros q Hq. rewrite Hout by (intros Hx; apply Hq; eapply in_skipn_in; eauto).
      now apply grad_fill_grads_notin.
    + intros q Hq. rewrite <- (grad_requires_grad_fill params). now apply Hflag.
    + intros q Hq. apply Hpres. rewrite grad_fill_grads_in by assumption.
      discriminate.
    + intros q Hq. apply Hpres. rewrite grad_fill_grads.
      destruct (in_dec Nat.eq_dec q params); [discriminate | assumption].
    + intros q. rewrite Hkeep. apply grad_requires_grad_fill.
    + intros Hnd q Hq.
      rewrite Hout by (intros Hx; eapply NoDup_firstn_skipn; eauto).
      apply grad_fill_grads_in. eapply in_firstn_in; eauto.
    + intros Hnd q Hq.
      apply Hin; [now apply NoDup_skipn | assumption |].
      apply grad_fill_grads_in. eapply in_skipn_in; eauto.
    + exists (if 0 <? k then div_ b' ws else b').
      repeat split.
      * destruct (0 <? k); simpl; assumption.
      * destruct (0 <? k); simpl; assumption.
      * intros Hwf. unfold bucket_data. fold k.
        specialize (Hdata (wf_fill_grads params s Hwf) (Nat.le_0_l _)).
        simpl in Hdata.
        rewrite (flat_grads_ext s) in Hdata
          by (intros; apply filled_fill_grads).
        destruct (0 <? k) eqn:Hk; simpl.
        -- now rewrite Hdata.
        -- rewrite Hdata. apply Nat.ltb_ge in Hk.
           assert (k = 0) as -> by lia. reflexivity.
Qed.

(** An iteration raises exactly when a gradient of its unpacked suffix is
    marked, and then it raises [RuntimeError]. *)
Lemma reduce_rank_cases (group : Group) (ws buffer_size rank : nat)
    (params : list ParamId) (buffer : Tensor) (st : TaskState) :
  if suffix_flagged (st_store st) buffer_size params
  then reduce_rank group ws buffer_size rank params buffer st = Raise RuntimeError
  else exists st', reduce_rank group ws buffer_size rank params buffer st = Ok st'.
Proof.
  unfold suffix_flagged, reduce_rank.
  set (s := st_store st). set (k := bucket_len s buffer_size params 0).
  destruct (Nat.eqb_spec (length params) 0) as [Hl|Hl].
  - apply length_zero_iff_nil in Hl. subst params. subst k. simpl. eauto.
  - destruct (pack_loop_spec (fill_grads s params) buffer_size params 0 0 buffer)
      as (b' & Hpack & _).
    { intros q Hq. rewrite grad_fill_grads_in by assumption. discriminate. }
    rewrite (bucket_len_ext s) in Hpack by (intros; apply numel_fill_grads).
    fold k in Hpack. rewrite Hpack. simpl.
    assert (Hpres : forall q, In q (skipn k params) ->
                              grad (fill_grads s params q) <> None).
    { intros q Hq. rewrite grad_fill_grads_in by (eapply in_skipn_in; eauto).
      discriminate. }
    destruct (existsb (grad_requires_grad s) (skipn k params)) eqn:Hex.
    + apply existsb_exists in Hex. destruct Hex as (q & Hq & Hflag).
      rewrite reduce_direct_raises.
      * now destruct (0 <? k).
      * assumption.
      * exists q. split; [assumption|]. now rewrite grad_requires_grad_fill.
    + destruct (reduce_direct_ok ws (_get_global_rank group rank) (skipn k params)
                  (fill_grads s params) (requests st) Hpres) as (s1 & Hs1).
      * intros q Hq. rewrite grad_requires_grad_fill.
        destruct (grad_requires_grad s q) eqn:Hf; [|reflexivity].
        assert (existsb (grad_requires_grad s) (skipn k params) = true)
          by (apply existsb_exists; eauto).
        congruence.
      * rewrite Hs1. destruct (0 <? k); simpl; eauto.
Qed.

(** ** What the reducer never changes *)

Lemma same_shape_refl (s : Store) : same_shape s s.
Proof. split; auto. Qed.

Lemma same_shape_trans (s1 s2 s3 : Store) :
  same_shape s1 s2 -> same_shape s2 s3 -> same_shape s1 s3.
Proof.
  intros [N1 D1 F1 P1] [N2 D2 F2 P2]. split; intros.
  - now rewrite N2, N1.
  - now rewrite D2, D1.
  - now rewrite F2, F1.
  - auto.
Qed.

Lemma wf_set_grad (s : Store) (p : ParamId) (g : Tensor) :
  wf_store s -> length (data g) = numel (s p) -> wf_store (set_grad s p g).
Proof.
  intros Hwf Hlen q g'. rewrite numel_set_grad.
  destruct (Nat.eq_dec q p) as [->|Hne].
  - rewrite set_grad_eq. now intros [= <-].
  - rewrite set_grad_neq by assumption. apply Hwf.
Qed.

Lemma reduce_direct_wf (ws global_rank : nat) (ps : list ParamId) :
  forall (s s' : Store) (reqs reqs' : list Work),
    reduce_direct ws global_rank ps s reqs = Ok (s', reqs') ->
    wf_store s -> wf_store s'.
Proof.
  induction ps as [|p ps IH]; intros s s' reqs reqs' H Hwf; simpl in H.
  - now injection H as <- <-.
  - destruct (grad (s p)) as [g|] eqn:Hgp; [|discriminate].
    destruct (requires_grad g); [discriminate|].
    eapply IH; [eassumption|].
    apply wf_set_grad; [assumption|].
    simpl. rewrite length_map. now apply Hwf.
Qed.

Lemma same_shape_fill_grads (s : Store) (params : list ParamId) :
  same_shape s (fill_grads s params).
Proof.
  split; intros.
  - apply numel_fill_grads.
  - apply dtype_fill_grads.
  - apply grad_requires_grad_fill.
  - rewrite grad_fill_grads.
    destruct (in_dec Nat.eq_dec q params); [discriminate | assumption].
Qed.

Lemma reduce_direct_shape (ws global_rank : nat) (ps : list ParamId)
    (s s' : Store) (reqs reqs' : list Work) :
  reduce_direct ws global_rank ps s reqs = Ok (s', reqs') -> same_shape s s'.
Proof.
  intros H. apply reduce_direct_inv in H.
  destruct H as (_ & Hnum & Hdt & _ & _ & Hpres & Hkeep & _).
  split; assumption.
Qed.

Lemma reduce_rank_shape (group : Group) (ws buffer_size rank : nat)
    (params : list ParamId) (buffer : Tensor) (st st' : TaskState) :
  reduce_rank group ws buffer_size rank params buffer st = Ok st' ->
  same_shape (st_store st) (st_store st').
Proof.
  unfold reduce_rank. destruct (length params =? 0).
  - intros [= <-]. apply same_shape_refl.
  - destruct (pack_loop _ _ _ _ _ _) as [[[i off] b]|]; [|discriminate]. simpl.
    destruct (reduce_direct _ _ _ _ _) as [[s1 reqs1]|] eqn:Hd.
    2:{ destruct (0 <? i); discriminate. }
    intros H.
    assert (st_store st' = s1) as ->.
    { destruct (0 <? i); simpl in H; now injection H as <-. }
    eapply same_shape_trans; [apply same_shape_fill_grads|].
    eapply reduce_direct_shape; eassumption.
Qed.

Lemma reduce_rank_wf (group : Group) (ws buffer_size rank : nat)
    (params : list ParamId) (buffer : Tensor) (st st' : TaskState) :
  reduce_rank group ws buffer_size rank params buffer st = Ok st' ->
  wf_store (st_store st) -> wf_store (st_store st').
Proof.
  unfold reduce_rank. destruct (length params =? 0).
  - now intros [= <-].
  - destruct (pack_loop _ _ _ _ _ _) as [[[i off] b]|]; [|discriminate]. simpl.
    destruct (reduce_direct _ _ _ _ _) as [[s1 reqs1]|] eqn:Hd.
    2:{ destruct (0 <? i); discriminate. }
    intros H Hwf.
    assert (st_store st' = s1) as ->.
    { destruct (0 <? i); simpl in H; now injection H as <-. }
    eapply reduce_direct_wf; [eassumption|]. now apply wf_fill_grads.
Qed.


Lemma bucket_len_shape (s s' : Store) (buffer_size : nat) (rest : list ParamId)
    (offset : nat) :
  same_shape s s' ->
  bucket_len s' buffer_size rest offset = bucket_len s buffer_size rest offset.
Proof. intros H. apply bucket_len_ext. apply H. Qed.


(** ** The loop over the ranks *)


Lemma reduce_rank_length (group : Group) (ws buffer_size rank : nat)
    (params : list ParamId) (buffer : Tensor) (st st' : TaskState) :
  reduce_rank group ws buffer_size rank params buffer st = Ok st' ->
  length (st_buffers st') = length (st_buffers st).
Proof.
  unfold reduce_rank. destruct (length params =? 0).
  - now intros [= <-].
  - destruct (pack_loop _ _ _ _ _ _) as [[[i off] b]|]; [|discriminate]. simpl.
    destruct (reduce_direct _ _ _ _ _) as [[s1 reqs1]|].
    2:{ destruct (0 <? i); discriminate. }
    intros H. destruct (0 <? i); simpl in H; injection H as <-; simpl;
      apply length_update_nth.
Qed.


Lemma all_bucket_works_shape (group : Group) (s s' : Store) (buffer_size : nat)
    (per_rank_params : list (list ParamId)) :
  same_shape s s' ->
  forall rank, all_bucket_works group s' buffer_size rank per_rank_params
               = all_bucket_works group s buffer_size rank per_rank_params.
Proof.
  intros H. induction per_rank_params as [|params rest IH]; intros rank; simpl.
  - reflexivity.
  - now rewrite IH, (bucket_len_shape s s').
Qed.

Lemma all_direct_works_shape (group : Group) (s s' : Store) (buffer_size : nat)
    (per_rank_params : list (list ParamId)) :
  same_shape s s' ->
  forall rank, all_direct_works group s' buffer_size rank per_rank_params
               = all_direct_works group s buffer_size rank per_rank_params.
Proof.
  intros H. induction per_rank_params as [|params rest IH]; intros rank; simpl.
  - reflexivity.
  - now rewrite IH, (bucket_len_shape s s').
Qed.

Lemma reduce_ranks_cons_inv (group : Group) (ws buffer_size rank : nat)
    (params : list ParamId) (rest : list (list ParamId)) (st st' : TaskState) :
  rank < length (st_buffers st) ->
  reduce_ranks group ws buffer_size rank (params :: rest) st = Ok st' ->
  exists buffer st1,
    nth_error (st_buffers st) rank = Some buffer
    /\ reduce_rank group ws buffer_size rank params buffer st = Ok st1
    /\ reduce_ranks group ws buffer_size (S rank) rest st1 = Ok st'.
Proof.
  intros Hlen H. simpl in H.
  destruct (nth_error (st_buffers st) rank) as [buffer|] eqn:Hb.
  2:{ apply nth_error_None in Hb. lia. }
  destruct (reduce_rank group ws buffer_size rank params buffer st) as [st1|] eqn:H1;
    [|discriminate].
  exists buffer, st1. auto.
Qed.

(** Inversion of a completed loop, one iteration at a time. *)
Ltac ranks_step H :=
  let buffer := fresh "buffer" in
  let st1 := fresh "st1" in
  let Hb := fresh "Hb" in
  let H1 := fresh "H1" in
  apply reduce_ranks_cons_inv in H; [|simpl in *; lia];
  destruct H as (buffer & st1 & Hb & H1 & H);
  pose proof (reduce_rank_shape _ _ _ _ _ _ _ _ H1) as Hshape1;
  pose proof (reduce_rank_length _ _ _ _ _ _ _ _ H1) as Hlen1;
  pose proof (reduce_rank_inv _ _ _ _ _ _ _ _ Hb H1) as Hinv1;
  simpl in Hinv1.

Lemma reduce_ranks_shape (group : Group) (ws buffer_size : nat)
    (per_rank_params : list (list ParamId)) :
  forall (rank : nat) (st st' : TaskState),
    rank + length per_rank_params <= length (st_buffers st) ->
    reduce_ranks group ws buffer_size rank per_rank_params st = Ok st' ->
    same_shape (st_store st) (st_store st')
    /\ length (st_buffers st') = length (st_buffers st)
    /\ (wf_store (st_store st) -> wf_store (st_store st')).
Proof.
  induction per_rank_params as [|params rest IH]; intros rank st st' Hlen H.
  - injection H as <-. split; [apply same_shape_refl | auto].
  - ranks_step H.
    apply IH in H; [|simpl in Hlen; lia].
    destruct H as (Hs & Hl & Hwf).
    split; [|split].
    + eapply same_shape_trans; eassumption.
    + congruence.
    + intros Hw. apply Hwf. eapply reduce_rank_wf; eassumption.
Qed.

(** The handles a completed loop has submitted. *)
Lemma reduce_ranks_works (group : Group) (ws buffer_size : nat)
    (per_rank_params : list (list ParamId)) :
  forall (rank : nat) (st st' : TaskState),
    rank + length per_rank_params <= length (st_buffers st) ->
    reduce_ranks group ws buffer_size rank per_rank_params st = Ok st' ->
    bucket_requests st'
    = bucket_requests st
      ++ all_bucket_works group (st_store st) buffer_size rank per_rank_params
    /\ requests st'
       = requests st
         ++ all_direct_works group (st_store st) buffer_size rank per_rank_params.
Proof.
  induction per_rank_params as [|params rest IH]; intros rank st st' Hlen H.
  - injection H as <-. simpl. now rewrite !app_nil_r.
  - ranks_step H.
    apply IH in H; [|simpl in Hlen; lia].
    destruct H as (Hb' & Hr').
    destruct Hinv1 as (Hbr & Hreq & _).
    simpl. rewrite Hb', Hr', Hbr, Hreq.
    rewrite (all_bucket_works_shape group (st_store st) (st_store st1)) by assumption.
    rewrite (all_direct_works_shape group (st_store st) (st_store st1)) by assumption.
    now rewrite <- !app_assoc.
Qed.

(** A completed loop touches neither the parameters outside the lists nor
    the buffers of other ranks, and every parameter of the lists has a
    gradient afterwards. *)
Lemma reduce_ranks_frame (group : Group) (ws buffer_size : nat)
    (per_rank_params : list (list ParamId)) :
  forall (rank : nat) (st st' : TaskState),
    rank + length per_rank_params <= length (st_buffers st) ->
    reduce_ranks group ws buffer_size rank per_rank_params st = Ok st' ->
    (forall q, ~ In q (concat per_rank_params) -> st_store st' q = st_store st q)
    /\ (forall r, r < rank \/ rank + length per_rank_params <= r ->
          nth_error (st_buffers st') r = nth_error (st_buffers st) r)
    /\ (forall q, In q (concat per_rank_params) -> grad (st_store st' q) <> None).
Proof.
  induction per_rank_params as [|params rest IH]; intros rank st st' Hlen H.
  - injection H as <-. repeat split; auto.
  - ranks_step H.
    simpl in Hlen.
    assert (Hlen' : S rank + length rest <= length (st_buffers st1)) by lia.
    pose proof (reduce_ranks_shape _ _ _ _ _ _ _ Hlen' H) as (Hshape & _).
    apply IH in H; [|assumption].
    destruct H as (Hout & Hbufs & Hpres).
    destruct Hinv1 as (_ & _ & _ & _ & Hout1 & _ & Hpres1 & _ & _ & _ & _
                       & b' & Hb' & _).
    split; [|split].
    + intros q Hq. simpl in Hq.
      rewrite Hout by (intros Hx; apply Hq; apply in_or_app; now right).
      apply Hout1. intros Hx; apply Hq; apply in_or_app; now left.
    + intros r Hr. simpl in Hr. rewrite Hbufs by lia.
      rewrite Hb'. apply nth_error_update_nth_neq. lia.
    + intros q Hq. simpl in Hq. apply in_app_or in Hq.
      destruct Hq as [Hq|Hq].
      * apply Hshape. now apply Hpres1.
      * now apply Hpres.
Qed.

Lemma NoDup_app_disjoint {A : Type} (l1 l2 : list A) (x : A) :
  NoDup (l1 ++ l2) -> In x l1 -> In x l2 -> False.
Proof.
  intros Hnd H1 H2. induction l1 as [|y l1 IH]; [destruct H1|].
  simpl in Hnd. inversion Hnd as [|? ? Hnotin Hnd']; subst.
  destruct H1 as [->|H1].
  - apply Hnotin. apply in_or_app. now right.
  - now apply IH.
Qed.

Lemma in_concat_nth {A : Type} (ll : list (list A)) (i : nat) (l : list A) (x : A) :
  nth_error ll i = Some l -> In x l -> In x (concat ll).
Proof.
  intros Hn Hx. apply in_concat. exists l. split; [|assumption].
  eapply nth_error_In; eassumption.
Qed.


(** With every parameter in one list only, a completed loop leaves the
    gradient of a packed parameter as it was after line 106, and has
    divided the gradient of an unpacked parameter once. *)
Lemma reduce_ranks_grads (group : Group) (ws buffer_size : nat)
    (per_rank_params : list (list ParamId)) :
  forall (rank : nat) (st st' : TaskState),
    rank + length per_rank_params <= length (st_buffers st) ->
    reduce_ranks group ws buffer_size rank per_rank_params st = Ok st' ->
    NoDup (concat per_rank_params) ->
    forall i params q,
      nth_error per_rank_params i = Some params ->
      let k := bucket_len (st_store st) buffer_size params 0 in
      (In q (firstn k params) ->
       grad (st_store st' q) = Some (filled (st_store st q)))
      /\ (In q (skipn k params) ->
          grad (st_store st' q) = Some (div_ (filled (st_store st q)) ws)).
Proof.
  induction per_rank_params as [|params0 rest IH];
    intros rank st st' Hlen H Hnd i params q Hi k.
  - destruct i; discriminate.
  - ranks_step H. simpl in Hlen, Hnd.
    assert (Hlen' : S rank + length rest <= length (st_buffers st1)) by lia.
    pose proof (reduce_ranks_frame _ _ _ _ _ _ _ Hlen' H) as (Hout & _ & _).
    destruct Hinv1 as (_ & _ & _ & _ & Hout1 & _ & _ & _ & _ & Hpre & Hsuf & _).
    destruct i as [|i]; simpl in Hi.
    + injection Hi as ->. subst k.
      pose proof (NoDup_app_remove_r _ _ Hnd) as Hnd2.
      pose proof (NoDup_app_remove_l _ _ Hnd) as Hnd1.
      assert (Hnd0 : NoDup params).
      { clear - Hnd. induction params as [|x l IHl]; [constructor|].
        simpl in Hnd. inversion Hnd as [|? ? Hn Hnd']; subst. constructor.
        - intros Hx. apply Hn. apply in_or_app. now left.
        - now apply IHl. }
      split; intros Hq.
      * rewrite Hout; [now apply Hpre|].
        intros Hx. eapply (NoDup_app_disjoint params); eauto.
        eapply in_firstn_in; eassumption.
      * rewrite Hout; [now apply Hsuf|].
        intros Hx. eapply (NoDup_app_disjoint params); eauto.
        eapply in_skipn_in; eassumption.
    + pose proof (NoDup_app_remove_l _ _ Hnd) as Hnd1.
      specialize (IH _ _ _ Hlen' H Hnd1 i params q Hi). simpl in IH.
      rewrite (bucket_len_shape (st_store st) (st_store st1)) in IH by assumption.
      fold k in IH.
      assert (Hq0 : In q params -> st_store st1 q = st_store st q).
      { intros Hq. apply Hout1. intros Hx.
        eapply (NoDup_app_disjoint params0); eauto.
        eapply in_concat_nth; eassumption. }
      destruct IH as (IH1 & IH2).
      split; intros Hq.
      * rewrite IH1 by assumption.
        rewrite Hq0 by (eapply in_firstn_in; eassumption). reflexivity.
      * rewrite IH2 by assumption.
        rewrite Hq0 by (eapply in_skipn_in; eassumption). reflexivity.
Qed.


(** ** Waiting and unpacking *)

Lemma same_shape_set_data (s : Store) (p : ParamId) (g : Tensor) (l : list Q) :
  grad (s p) = Some g -> same_shape s (set_grad s p (copy_data g l)).
Proof.
  intros Hg. split; intros q.
  - apply numel_set_grad.
  - apply dtype_set_grad.
  - unfold grad_requires_grad. destruct (Nat.eq_dec q p) as [->|Hne].
    + now rewrite set_grad_eq, Hg.
    + now rewrite set_grad_neq.
  - destruct (Nat.eq_dec q p) as [->|Hne].
    + rewrite set_grad_eq. discriminate.
    + now rewrite set_grad_neq.
Qed.

(** Waiting on a handle changes the tensor of the handle and nothing else. *)
Lemma wait_inv (transport : Transport) (w : Work) (s s' : Store)
    (buffers buffers' : list Tensor) :
  wait transport w s buffers = (s', buffers') ->
  same_shape s s'
  /\ length buffers' = length buffers
  /\ match work_tensor w with
     | BufferRef r =>
         s' = s
         /\ (forall r', r' <> r -> nth_error buffers' r' = nth_error buffers r')
         /\ (forall b, nth_error buffers r = Some b ->
               nth_error buffers' r = Some (copy_data b (transport w (data b))))
     | GradRef p =>
         buffers' = buffers
         /\ (forall q, q <> p -> s' q = s q)
         /\ (forall g, grad (s p) = Some g ->
               grad (s' p) = Some (copy_data g (transport w (data g))))
     end.
Proof.
  unfold wait. destruct (work_tensor w) as [r|p].
  - destruct (nth_error buffers r) as [b|] eqn:Hb; intros [= <- <-].
    + split; [apply same_shape_refl|]. split; [apply length_update_nth|].
      split; [reflexivity|]. split.
      * intros r' Hr'. apply nth_error_update_nth_neq. congruence.
      * intros b0 [= <-]. apply nth_error_update_nth_eq.
        apply nth_error_Some. congruence.
    + split; [apply same_shape_refl|]. repeat split; auto. discriminate.
  - destruct (grad (s p)) as [g|] eqn:Hg; intros [= <- <-].
    + split; [now apply same_shape_set_data|]. repeat split.
      * intros q Hq. now apply set_grad_neq.
      * intros g0 [= <-]. apply set_grad_eq.
    + split; [apply same_shape_refl|]. repeat split; auto. discriminate.
Qed.


(** What a completed unpacking loop has done: it has written the packed
    parameters of the list, each from its own slice of the buffer, and
    nothing else. *)
Lemma unpack_loop_inv (buffer_size : nat) (buffer : Tensor) (rest : list ParamId) :
  forall (offset : nat) (s s' : Store),
    unpack_loop buffer_size buffer rest offset s = Ok s' ->
    let k := bucket_len s buffer_size rest offset in
    same_shape s s'
    /\ (forall q, ~ In q (firstn k rest) -> s' q = s q)
    /\ (NoDup rest ->
        forall j p g,
          j < k -> nth_error rest j = Some p -> grad (s p) = Some g ->
          grad (s' p)
          = Some (copy_data g
                    (slice (data buffer)
                       (offset + sum_numel s (firstn j rest))
                       (offset + sum_numel s (firstn (S j) rest))))).
Proof.
  induction rest as [|p rest IH]; intros offset s s' H; simpl in H |- *.
  - injection H as <-. split; [apply same_shape_refl|]. split; [auto|].
    intros _ j p g Hj. lia.
  - destruct (Nat.ltb_spec (offset + numel (s p)) buffer_size) as [Hlt|Hge].
    2:{ injection H as <-. split; [apply same_shape_refl|]. split; [auto|].
        intros _ j q g Hj. lia. }
    destruct (grad (s p)) as [g|] eqn:Hgp; [|discriminate].
    set (s1 := set_grad s p
                 (copy_data g (slice (data buffer) offset (offset + numel (s p)))))
      in *.
    assert (Hshape1 : same_shape s s1) by now apply same_shape_set_data.
    apply IH in H. destruct H as (Hshape & Hout & Hin).
    rewrite (bucket_len_shape s s1) in Hout, Hin by assumption.
    split; [eapply same_shape_trans; eassumption|]. split.
    + intros q Hq. simpl in Hq.
      rewrite Hout by tauto. apply set_grad_neq. intros ->. tauto.
    + intros Hnd j q g' Hj Hq Hg'.
      inversion Hnd as [|? ? Hnotin Hnd']; subst.
      destruct j as [|j]; simpl in Hq.
      * injection Hq as <-.
        rewrite Hout by (intros Hx; apply Hnotin; eapply in_firstn_in; eassumption).
        unfold s1. rewrite set_grad_eq. simpl.
        rewrite !Nat.add_0_r. replace g' with g by congruence. reflexivity.
      * assert (Hne : q <> p).
        { intros ->. apply Hnotin. eapply nth_error_In; eassumption. }
        rewrite (Hin Hnd' j q g') ; [|lia|assumption|].
        2:{ unfold s1. now rewrite set_grad_neq. }
        rewrite !(sum_numel_ext s s1) by apply Hshape1.
        change (firstn (S (S j)) (p :: rest)) with (p :: firstn (S j) rest).
        change (firstn (S j) (p :: rest)) with (p :: firstn j rest).
        change (sum_numel s (p :: firstn (S j) rest))
          with (numel (s p) + sum_numel s (firstn (S j) rest)).
        change (sum_numel s (p :: firstn j rest))
          with (numel (s p) + sum_numel s (firstn j rest)).
        now rewrite !Nat.add_assoc.
Qed.


(** What a completed loop over the bucket handles has done.  The store is
    written only in the iteration whose handle is tagged with the calling
    rank, and there only at the packed parameters of the calling rank, each
    from its slice of what the transport left in the buffer. *)
Lemma wait_buckets_inv (transport : Transport) (self_rank buffer_size : nat)
    (per_rank_params : list (list ParamId)) (breqs : list (Work * nat)) :
  forall (s s' : Store) (buffers buffers' : list Tensor),
    (forall w r, In (w, r) breqs -> work_tensor w = BufferRef r) ->
    wait_buckets transport self_rank buffer_size per_rank_params breqs s buffers
    = Ok (s', buffers') ->
    same_shape s s'
    /\ length buffers' = length buffers
    /\ (~ In self_rank (map snd breqs) -> s' = s)
    /\ (forall params q,
          nth_error per_rank_params self_rank = Some params ->
          ~ In q (firstn (bucket_len s buffer_size params 0) params) ->
          s' q = s q)
    /\ (NoDup (map snd breqs) ->
        forall w params buffer j p g,
          In (w, self_rank) breqs ->
          nth_error per_rank_params self_rank = Some params ->
          nth_error buffers self_rank = Some buffer ->
          NoDup params ->
          j < bucket_len s buffer_size params 0 ->
          nth_error params j = Some p ->
          grad (s p) = Some g ->
          grad (s' p)
          = Some (copy_data g
                    (slice (transport w (data buffer))
                       (sum_numel s (firstn j params))
                       (sum_numel s (firstn (S j) params))))).
Proof.
  induction breqs as [|[w r] breqs IH]; intros s s' buffers buffers' Href H;
    simpl in H.
  - injection H as <- <-. split; [apply same_shape_refl|].
    repeat split; auto. intros _ w params buffer j p g [].
  - destruct (wait transport w s buffers) as [s1 b1] eqn:Hw.
    apply wait_inv in Hw. rewrite (Href w r (or_introl eq_refl)) in Hw.
    destruct Hw as (_ & Hlen1 & -> & Hother & Hthis).
    assert (Href' : forall w r, In (w, r) breqs -> work_tensor w = BufferRef r).
    { intros w' r' Hin. apply Href. now right. }
    destruct (Nat.eqb_spec r self_rank) as [->|Hne].
    + destruct (nth_error per_rank_params self_rank) as [params|] eqn:Hp;
        [|discriminate].
      destruct (nth_error b1 self_rank) as [buffer1|] eqn:Hb1; [|discriminate].
      destruct (unpack_loop buffer_size buffer1 params 0 s) as [s2|] eqn:Hu;
        [|discriminate].
      simpl in H. apply unpack_loop_inv in Hu. simpl in Hu.
      destruct Hu as (Hshape2 & Hout2 & Hin2).
      apply IH in H; [|assumption].
      destruct H as (Hshape & Hlen & Hnotin & Hout & _).
      split; [eapply same_shape_trans; eassumption|].
      split; [congruence|].
      split; [intros Hx; exfalso; apply Hx; now left|].
      split.
      * intros params' q [= <-] Hq.
        rewrite (Hout params q eq_refl).
        -- now apply Hout2.
        -- now rewrite (bucket_len_shape s s2).
      * intros Hnd w' params' buffer j p g Hin [= <-] Hbuf Hndp Hj Hpj Hg.
        simpl in Hnd. inversion Hnd as [|? ? Hfresh Hnd']; subst.
        assert (w' = w) as ->.
        { destruct Hin as [[= ->]|Hin]; [reflexivity|].
          exfalso. apply Hfresh. apply in_map_iff. exists (w', self_rank). auto. }
        rewrite Hnotin by assumption.
        rewrite (Hin2 Hndp j p g Hj Hpj Hg).
        specialize (Hthis buffer Hbuf). injection Hthis as ->. reflexivity.
    + simpl in H. apply IH in H; [|assumption].
      destruct H as (Hshape & Hlen & Hnotin & Hout & Hin).
      split; [assumption|]. split; [congruence|].
      split; [intros Hx; apply Hnotin; intros Hy; apply Hx; now right|].
      split; [assumption|].
      intros Hnd w' params buffer j p g Hw' Hp Hbuf Hndp Hj Hpj Hg.
      simpl in Hnd. inversion Hnd as [|? ? Hfresh Hnd']; subst.
      destruct Hw' as [[= -> ->]|Hw']; [contradiction|].
      apply (Hin Hnd' w' params buffer j p g); try assumption.
      rewrite Hother by congruence. assumption.
Qed.

(** What the final waits have done: each handle has changed the gradient it
    refers to, and nothing else has changed. *)
Lemma wait_all_inv (transport : Transport) (reqs : list Work) :
  forall (s s' : Store) (buffers buffers' : list Tensor),
    (forall w, In w reqs -> exists p, work_tensor w = GradRef p) ->
    wait_all transport reqs s buffers = (s', buffers') ->
    same_shape s s'
    /\ buffers' = buffers
    /\ (forall q, ~ In (GradRef q) (map work_tensor reqs) -> s' q = s q)
    /\ (NoDup (map work_tensor reqs) ->
        forall w p g,
          In w reqs -> work_tensor w = GradRef p -> grad (s p) = Some g ->
          grad (s' p) = Some (copy_data g (transport w (data g)))).
Proof.
  induction reqs as [|w reqs IH]; intros s s' buffers buffers' Href H; simpl in H.
  - injection H as <- <-. split; [apply same_shape_refl|].
    repeat split; auto. intros _ w p g [].
  - destruct (wait transport w s buffers) as [s1 b1] eqn:Hw.
    apply wait_inv in Hw.
    destruct (Href w (or_introl eq_refl)) as (p0 & Hp0). rewrite Hp0 in Hw.
    destruct Hw as (Hshape1 & _ & -> & Hother & Hthis).
    apply IH in H; [|intros w' Hin; apply Href; now right].
    destruct H as (Hshape & -> & Hout & Hin).
    split; [eapply same_shape_trans; eassumption|].
    split; [reflexivity|]. split.
    + intros q Hq. simpl in Hq. rewrite Hout by tauto.
      apply Hother. intros ->. apply Hq. left. assumption.
    + intros Hnd w' p g Hw' Hp Hg.
      simpl in Hnd. inversion Hnd as [|? ? Hfresh Hnd']; subst.
      destruct Hw' as [->|Hw'].
      * assert (p = p0) as -> by congruence.
        rewrite Hout by (now rewrite <- Hp0).
        now apply Hthis.
      * assert (p <> p0).
        { intros ->. apply Hfresh. rewrite Hp0, <- Hp. now apply in_map. }
        apply (Hin Hnd' w' p g); try assumption.
        now rewrite Hother.
Qed.

(** ** Slices of a bucket *)




Lemma nth_error_split_firstn {A : Type} (l : list A) (j : nat) (x : A) :
  nth_error l j = Some x ->
  firstn (S j) l = firstn j l ++ [x] /\ l = firstn j l ++ x :: skipn (S j) l.
Proof.
  revert j. induction l as [|y l IH]; intros [|j] H; simpl in H; try discriminate.
  - injection H as ->. auto.
  - destruct (IH j H) as (H1 & H2). split.
    + change (firstn (S (S j)) (y :: l)) with (y :: firstn (S j) l).
      rewrite H1. reflexivity.
    + change (firstn (S j) (y :: l)) with (y :: firstn j l).
      change (skipn (S (S j)) (y :: l)) with (skipn (S j) l).
      simpl. now f_equal.
Qed.



Lemma nth_error_firstn_lt {A : Type} (l : list A) (j k : nat) :
  j < k -> nth_error (firstn k l) j = nth_error l j.
Proof.
  revert j k. induction l as [|x l IH]; intros j k H.
  - now rewrite firstn_nil.
  - destruct k as [|k]; [lia|]. destruct j as [|j]; simpl; [reflexivity|].
    apply IH. lia.
Qed.


(** ** The two paths of an iteration *)



Lemma nth_error_direct_works (global_rank : nat) (ps : list ParamId) (i : nat)
    (p : ParamId) :
  nth_error (direct_works global_rank ps) i = Some (mkWork (GradRef p) global_rank)
  <-> nth_error ps i = Some p.
Proof.
  unfold direct_works. rewrite nth_error_map.
  destruct (nth_error ps i) as [q|]; simpl; split; intros H;
    try discriminate; congruence.
Qed.



(** ** The task as a whole *)

Lemma in_all_bucket_works (group : Group) (s : Store) (buffer_size : nat)
    (per_rank_params : list (list ParamId)) :
  forall rank w r,
    In (w, r) (all_bucket_works group s buffer_size rank per_rank_params) ->
    rank <= r
    /\ w = mkWork (BufferRef r) (_get_global_rank group r)
    /\ exists params,
         nth_error per_rank_params (r - rank) = Some params
         /\ 0 < bucket_len s buffer_size params 0.
Proof.
  induction per_rank_params as [|params rest IH]; intros rank w r H; simpl in H.
  - destruct H.
  - apply in_app_or in H. destruct H as [H|H].
    + unfold bucket_works in H.
      destruct (Nat.ltb_spec 0 (bucket_len s buffer_size params 0)) as [Hk|Hk];
        [|destruct H].
      destruct H as [[= <- <-]|[]].
      split; [lia|]. split; [reflexivity|].
      exists params. rewrite Nat.sub_diag. auto.
    + apply IH in H. destruct H as (Hle & Hw & params' & Hn & Hk).
      split; [lia|]. split; [assumption|].
      exists params'. split; [|assumption].
      replace (r - rank) with (S (r - S rank)) by lia. assumption.
Qed.



Lemma in_all_direct_works (group : Group) (s : Store) (buffer_size : nat)
    (per_rank_params : list (list ParamId)) :
  forall rank w,
    In w (all_direct_works group s buffer_size rank per_rank_params) ->
    exists i params p,
      nth_error per_rank_params i = Some params
      /\ In p (skipn (bucket_len s buffer_size params 0) params)
      /\ w = mkWork (GradRef p) (_get_global_rank group (rank + i)).
Proof.
  induction per_rank_params as [|params rest IH]; intros rank w H; simpl in H.
  - destruct H.
  - apply in_app_or in H. destruct H as [H|H].
    + unfold direct_works in H. apply in_map_iff in H.
      destruct H as (p & <- & Hp).
      exists 0, params, p. rewrite Nat.add_0_r. auto.
    + apply IH in H. destruct H as (i & params' & p & Hn & Hp & ->).
      exists (S i), params', p. replace (rank + S i) with (S rank + i) by lia. auto.
Qed.




Lemma NoDup_app_l {A : Type} (l1 l2 : list A) : NoDup (l1 ++ l2) -> NoDup l1.
Proof.
  induction l1 as [|x l IH]; intros H; [constructor|].
  simpl in H. inversion H as [|? ? Hn Hnd]; subst. constructor.
  - intros Hx. apply Hn. apply in_or_app. now left.
  - now apply IH.
Qed.


(** The submissions of the task: lines 95-137 complete exactly when the
    loop over the ranks does. *)
Lemma submit_all_inv (buffers : list Tensor) (per_rank_params : list (list ParamId))
    (group : Group) (ws : nat) (s : Store) (buffer_size : nat) (st : TaskState) :
  submit_all buffers per_rank_params group ws s = Ok (buffer_size, st) ->
  exists b0 rest,
    buffers = b0 :: rest
    /\ buffer_size = tensor_numel b0
    /\ reduce_ranks group ws buffer_size 0 per_rank_params (initial_state s buffers)
       = Ok st.
Proof.
  unfold submit_all. destruct buffers as [|b0 rest]; [discriminate|].
  fold (initial_state s (b0 :: rest)).
  destruct (reduce_ranks _ _ _ _ _ _) as [st0|] eqn:H; [|discriminate].
  simpl. intros [= <- <-]. exists b0, rest. auto.
Qed.



(** The three phases of a completed task. *)
Lemma task_inv (transport : Transport) (buffers : list Tensor)
    (per_rank_params : list (list ParamId)) (group : Group)
    (self_rank ws : nat) (s : Store) (st : TaskState) :
  _reduce_grads_task transport buffers per_rank_params group self_rank ws s = Ok st ->
  exists buffer_size st0 s1 b1,
    submit_all buffers per_rank_params group ws s = Ok (buffer_size, st0)
    /\ wait_buckets transport self_rank buffer_size per_rank_params
         (bucket_requests st0) (st_store st0) (st_buffers st0) = Ok (s1, b1)
    /\ wait_all transport (requests st0) s1 b1 = (st_store st, st_buffers st)
    /\ bucket_requests st = bucket_requests st0
    /\ requests st = requests st0.
Proof.
  unfold _reduce_grads_task. intros H.
  destruct (submit_all buffers per_rank_params group ws s) as [[C st0]|] eqn:Hs;
    [|discriminate].
  simpl in H.
  destruct (wait_buckets transport self_rank C per_rank_params
              (bucket_requests st0) (st_store st0) (st_buffers st0))
    as [[s1 b1]|] eqn:Hw; [|discriminate].
  simpl in H.
  destruct (wait_all transport (requests st0) s1 b1) as [s2 b2] eqn:Ha.
  injection H as <-. simpl. exists C, st0, s1, b1. auto.
Qed.

Lemma NoDup_concat_nth {A : Type} (ll : list (list A)) (i : nat) (l : list A) :
  NoDup (concat ll) -> nth_error ll i = Some l -> NoDup l.
Proof.
  revert i. induction ll as [|l0 ll IH]; intros i Hnd Hi.
  - destruct i; discriminate.
  - simpl in Hnd. destruct i as [|i]; simpl in Hi.
    + injection Hi as ->. eapply NoDup_app_l; eassumption.
    + eapply IH; [|eassumption]. eapply NoDup_app_remove_l; eassumption.
Qed.

Lemma NoDup_concat_disjoint {A : Type} (ll : list (list A)) (i j : nat)
    (l1 l2 : list A) (x : A) :
  NoDup (concat ll) ->
  nth_error ll i = Some l1 -> nth_error ll j = Some l2 ->
  In x l1 -> In x l2 -> i = j.
Proof.
  revert i j. induction ll as [|l0 ll IH]; intros i j Hnd Hi Hj H1 H2.
  - destruct i; discriminate.
  - simpl in Hnd. destruct i as [|i], j as [|j]; simpl in Hi, Hj.
    + reflexivity.
    + injection Hi as ->. exfalso.
      eapply (NoDup_app_disjoint l1); [eassumption..|].
      eapply in_concat_nth; eassumption.
    + injection Hj as ->. exfalso.
      eapply (NoDup_app_disjoint l2); [eassumption..|].
      eapply in_concat_nth; eassumption.
    + f_equal. eapply IH; try eassumption.
      eapply NoDup_app_remove_l; eassumption.
Qed.

(** The final store of a completed task, parameter by parameter, when every
    parameter is in one list only. *)
Section TaskFinal.
Variable transport : Transport.
Variables (b0 : Tensor) (rest : list Tensor).
Variable per_rank_params : list (list ParamId).
Variable group : Group.
Variables self_rank ws : nat.
Variable s : Store.
Variable st : TaskState.

Let buffers := b0 :: rest.
Let buffer_size := tensor_numel b0.

Hypothesis Hlen : length per_rank_params <= length buffers.
Hypothesis Hnd : NoDup (concat per_rank_params).
Hypothesis Htask :
  _reduce_grads_task transport buffers per_rank_params group self_rank ws s
  = Ok st.

Lemma task_submitted :
  exists st0 s1 b1,
    reduce_ranks group ws buffer_size 0 per_rank_params (initial_state s buffers)
    = Ok st0
    /\ wait_buckets transport self_rank buffer_size per_rank_params
         (all_bucket_works group s buffer_size 0 per_rank_params)
         (st_store st0) (st_buffers st0) = Ok (s1, b1)
    /\ wait_all transport (all_direct_works group s buffer_size 0 per_rank_params)
         s1 b1 = (st_store st, st_buffers st)
    /\ bucket_requests st = all_bucket_works group s buffer_size 0 per_rank_params
    /\ requests st = all_direct_works group s buffer_size 0 per_rank_params.
Proof.
  destruct (task_inv _ _ _ _ _ _ _ _ Htask)
    as (C & st0 & s1 & b1 & Hs & Hw & Ha & Hbr & Hreq).
  apply submit_all_inv in Hs.
  destruct Hs as (b0' & rest' & [= <- <-] & -> & Hs).
  assert (Hlen0 : 0 + length per_rank_params
                  <= length (st_buffers (initial_state s buffers))) by exact Hlen.
  pose proof (reduce_ranks_works _ _ _ _ _ _ _ Hlen0 Hs) as (Hbr0 & Hreq0).
  simpl in Hbr0, Hreq0. rewrite Hbr0 in Hw, Hbr. rewrite Hreq0 in Ha, Hreq.
  exists st0, s1, b1. auto.
Qed.

Lemma bucket_refs w r :
  In (w, r) (all_bucket_works group s buffer_size 0 per_rank_params) ->
  work_tensor w = BufferRef r.
Proof. intros H. apply in_all_bucket_works in H. now destruct H as (_ & -> & _). Qed.

Lemma direct_refs w :
  In w (all_direct_works group s buffer_size 0 per_rank_params) ->
  exists p, work_tensor w = GradRef p.
Proof.
  intros H. apply in_all_direct_works in H.
  destruct H as (i & params & p & _ & _ & ->). now exists p.
Qed.

(** No direct handle refers to a packed parameter. *)
Lemma packed_not_direct r params q :
  nth_error per_rank_params r = Some params ->
  In q (firstn (bucket_len s buffer_size params 0) params) ->
  ~ In (GradRef q)
       (map work_tensor (all_direct_works group s buffer_size 0 per_rank_params)).
Proof.
  intros Hr Hq Hin. apply in_map_iff in Hin. destruct Hin as (w & Hw & Hin).
  apply in_all_direct_works in Hin.
  destruct Hin as (i & params' & p & Hi & Hp & ->). simpl in Hw.
  injection Hw as ->.
  assert (i = r).
  { eapply (NoDup_concat_disjoint per_rank_params i r); try eassumption.
    - eapply in_skipn_in; eassumption.
    - eapply in_firstn_in; eassumption. }
  subst i. assert (params' = params) as -> by congruence.
  apply (NoDup_firstn_skipn params (bucket_len s buffer_size params 0) q);
    [eapply NoDup_concat_nth; eassumption | assumption | assumption].
Qed.

(** A parameter outside the lists is not touched. *)
Lemma task_final_outside q :
  ~ In q (concat per_rank_params) -> st_store st q = s q.
Proof.
  intros Hq.
  destruct task_submitted as (st0 & s1 & b1 & Hs & Hw & Ha & _).
  assert (Hlen0 : 0 + length per_rank_params
                  <= length (st_buffers (initial_state s buffers))) by exact Hlen.
  pose proof (reduce_ranks_frame _ _ _ _ _ _ _ Hlen0 Hs) as (Hout & _).
  pose proof (reduce_ranks_shape _ _ _ _ _ _ _ Hlen0 Hs) as (Hshape & _).
  simpl in Hout, Hshape.
  apply wait_buckets_inv in Hw; [|exact bucket_refs].
  destruct Hw as (_ & _ & Hnone & Hself & _).
  apply wait_all_inv in Ha; [|exact direct_refs].
  destruct Ha as (_ & _ & Hkeep & _).
  rewrite Hkeep.
  - rewrite <- (Hout q Hq).
    destruct (nth_error per_rank_params self_rank) as [params|] eqn:Hp.
    + apply (Hself params q eq_refl). intros Hx. apply Hq.
      eapply in_concat_nth; [eassumption|]. eapply in_firstn_in; eassumption.
    + rewrite Hnone; [reflexivity|].
      rewrite in_map_iff. intros ([w r] & Hr & Hin). simpl in Hr. subst r.
      apply in_all_bucket_works in Hin. rewrite Nat.sub_0_r in Hin.
      destruct Hin as (_ & _ & params & Hn & _). congruence.
  - intros Hin. apply in_map_iff in Hin. destruct Hin as (w & Hw & Hin).
    apply in_all_direct_works in Hin.
    destruct Hin as (i & params' & p & Hi & Hp & ->). simpl in Hw.
    injection Hw as ->. apply Hq.
    eapply in_concat_nth; [eassumption|]. eapply in_skipn_in; eassumption.
Qed.

(** A packed parameter of another rank keeps the gradient that line 106
    left in its slot. *)
Lemma task_final_packed_other r params q :
  r <> self_rank ->
  nth_error per_rank_params r = Some params ->
  In q (firstn (bucket_len s buffer_size params 0) params) ->
  grad (st_store st q) = Some (filled (s q)).
Proof.
  intros Hr Hparams Hq.
  destruct task_submitted as (st0 & s1 & b1 & Hs & Hw & Ha & _).
  assert (Hlen0 : 0 + length per_rank_params
                  <= length (st_buffers (initial_state s buffers))) by exact Hlen.
  pose proof (reduce_ranks_grads _ _ _ _ _ _ _ Hlen0 Hs Hnd r params q Hparams)
    as (Hpre & _).
  pose proof (reduce_ranks_shape _ _ _ _ _ _ _ Hlen0 Hs) as (Hshape & _).
  simpl in Hpre, Hshape.
  apply wait_buckets_inv in Hw; [|exact bucket_refs].
  destruct Hw as (_ & _ & Hnone & Hself & _).
  apply wait_all_inv in Ha; [|exact direct_refs].
  destruct Ha as (_ & _ & Hkeep & _).
  rewrite Hkeep by (eapply packed_not_direct; eassumption).
  rewrite <- (Hpre Hq). f_equal.
  destruct (nth_error per_rank_params self_rank) as [params'|] eqn:Hp.
  - apply (Hself params' q eq_refl). intros Hx. apply Hr.
    eapply (NoDup_concat_disjoint per_rank_params r self_rank); try eassumption.
    + eapply in_firstn_in; eassumption.
    + eapply in_firstn_in; eassumption.
  - rewrite Hnone; [reflexivity|].
    rewrite in_map_iff. intros ([w r'] & Hr' & Hin). simpl in Hr'. subst r'.
    apply in_all_bucket_works in Hin. rewrite Nat.sub_0_r in Hin.
    destruct Hin as (_ & _ & params' & Hn & _). congruence.
Qed.


(** Sizes, types and marks are those of the start. *)
Lemma task_final_shape : same_shape s (st_store st).
Proof.
  destruct task_submitted as (st0 & s1 & b1 & Hs & Hw & Ha & _).
  assert (Hlen0 : 0 + length per_rank_params
                  <= length (st_buffers (initial_state s buffers))) by exact Hlen.
  pose proof (reduce_ranks_shape _ _ _ _ _ _ _ Hlen0 Hs) as (Hshape & _).
  apply wait_buckets_inv in Hw; [|exact bucket_refs].
  destruct Hw as (Hshape1 & _).
  apply wait_all_inv in Ha; [|exact direct_refs].
  destruct Ha as (Hshape2 & _).
  eapply same_shape_trans; [exact Hshape|].
  eapply same_shape_trans; eassumption.
Qed.
End TaskFinal.

(** ** Sums over the group of ranks *)














(** ** Construction *)

Lemma Device_eqb_spec (a b : Device) : reflect (a = b) (Device_eqb a b).
Proof.
  destruct a as [|i], b as [|j]; simpl; try (constructor; congruence).
  destruct (Nat.eqb_spec i j); constructor; congruence.
Qed.

Lemma dict_get_set_eq {V : Type} (d : Dict V) (k : Device) (v : V) :
  dict_get (dict_set d k v) k = Ok v.
Proof.
  induction d as [|[k' v'] d IH]; simpl.
  - destruct (Device_eqb_spec k k); [reflexivity | contradiction].
  - destruct (Device_eqb_spec k' k) as [->|Hne]; simpl.
    + destruct (Device_eqb_spec k k); [reflexivity | contradiction].
    + destruct (Device_eqb_spec k' k); [contradiction | assumption].
Qed.

Lemma dict_get_set_neq {V : Type} (d : Dict V) (k k0 : Device) (v : V) :
  k0 <> k -> dict_get (dict_set d k v) k0 = dict_get d k0.
Proof.
  intros Hne. induction d as [|[k' v'] d IH]; simpl.
  - destruct (Device_eqb_spec k k0); [congruence | reflexivity].
  - destruct (Device_eqb_spec k' k) as [->|Hne']; simpl.
    + destruct (Device_eqb_spec k k0); [congruence | reflexivity].
    + destruct (Device_eqb_spec k' k0); [reflexivity | assumption].
Qed.

Lemma in_dict_set {V : Type} (d : Dict V) (k k0 : Device) (v v0 : V) :
  In (k0, v0) (dict_set d k v) -> (k0 = k /\ v0 = v) \/ In (k0, v0) d.
Proof.
  induction d as [|[k' v'] d IH]; simpl.
  - intros [[= <- <-]|[]]. now left.
  - destruct (Device_eqb_spec k' k) as [->|Hne]; simpl.
    + intros [[= <- <-]|H]; [now left | right; now right].
    + intros [H|H]; [right; now left|].
      destruct (IH H) as [H'|H']; [now left | right; now right].
Qed.

Lemma alloc_buffers_ok (s : Store) (buffer_size : Z)
    (items : Dict (list (list ParamId))) :
  (0 <= buffer_size)%Z ->
  (forall device per_device, In (device, per_device) items ->
     exists p ps rest, per_device = (p :: ps) :: rest) ->
  forall reduce_buffers,
    exists reduce_buffers',
      alloc_buffers s buffer_size items reduce_buffers = Ok reduce_buffers'.
Proof.
  intros Hpos. induction items as [|[device per_device] items IH];
    intros Hne rb; simpl; [eauto|].
  destruct (Hne device per_device (or_introl eq_refl)) as (p & ps & rest & ->).
  destruct (Z.ltb_spec buffer_size 0) as [Hlt|Hge]; [lia|].
  apply IH. intros d pd Hin. apply (Hne d pd). now right.
Qed.

Lemma alloc_buffers_inv (s : Store) (buffer_size : Z)
    (items : Dict (list (list ParamId))) :
  forall reduce_buffers reduce_buffers',
    alloc_buffers s buffer_size items reduce_buffers = Ok reduce_buffers' ->
    forall device buffers,
      In (device, buffers) reduce_buffers' ->
      In (device, buffers) reduce_buffers
      \/ exists p ps rest,
           In (device, (p :: ps) :: rest) items
           /\ (0 <= buffer_size)%Z
           /\ buffers = device_buffers s buffer_size ((p :: ps) :: rest) p.
Proof.
  induction items as [|[device per_device] items IH]; intros rb rb' H d bs Hin;
    simpl in H.
  - injection H as <-. now left.
  - destruct per_device as [|[|p ps] rest]; try discriminate.
    destruct (Z.ltb_spec buffer_size 0) as [Hlt|Hge]; [discriminate|].
    destruct (IH _ _ H d bs Hin) as [Hold|(p' & ps' & rest' & Hi & Hz & Hb)].
    + apply in_dict_set in Hold. destruct Hold as [[-> ->]|Hold]; [|now left].
      right. exists p, ps, rest. split; [now left|]. split; [assumption|reflexivity].
    + right. exists p', ps', rest'. split; [now right|]. auto.
Qed.

Lemma alloc_buffers_get_other (s : Store) (buffer_size : Z)
    (items : Dict (list (list ParamId))) (device : Device) :
  ~ In device (map fst items) ->
  forall reduce_buffers reduce_buffers',
    alloc_buffers s buffer_size items reduce_buffers = Ok reduce_buffers' ->
    dict_get reduce_buffers' device = dict_get reduce_buffers device.
Proof.
  induction items as [|[d per_device] items IH]; intros Hnot rb rb' H; simpl in H.
  - now injection H as <-.
  - destruct per_device as [|[|p ps] rest]; try discriminate.
    destruct (Z.ltb_spec buffer_size 0) as [Hlt|Hge]; [discriminate|].
    simpl in Hnot. rewrite (IH ltac:(tauto) _ _ H).
    apply dict_get_set_neq. intros ->. tauto.
Qed.

Lemma alloc_buffers_get (s : Store) (buffer_size : Z)
    (items : Dict (list (list ParamId))) :
  NoDup (map fst items) ->
  forall reduce_buffers reduce_buffers',
    alloc_buffers s buffer_size items reduce_buffers = Ok reduce_buffers' ->
    forall device p ps rest,
      In (device, (p :: ps) :: rest) items ->
      dict_get reduce_buffers' device
      = Ok (device_buffers s buffer_size ((p :: ps) :: rest) p).
Proof.
  induction items as [|[d per_device] items IH]; intros Hnd rb rb' H device p ps rest
    Hin; simpl in H.
  - destruct Hin.
  - simpl in Hnd. inversion Hnd as [|? ? Hfresh Hnd']; subst.
    destruct per_device as [|[|p0 ps0] rest0]; try discriminate.
    destruct (Z.ltb_spec buffer_size 0) as [Hlt|Hge]; [discriminate|].
    destruct Hin as [[= -> -> -> ->]|Hin].
    + rewrite (alloc_buffers_get_other _ _ _ _ Hfresh _ _ H).
      apply dict_get_set_eq.
    + eapply IH; eassumption.
Qed.

(** The loop over the ranks, cut at a rank: the iterations below it, then
    the others from the state the first ones leave. *)
Lemma reduce_ranks_app (group : Group) (ws buffer_size : nat)
    (l1 l2 : list (list ParamId)) :
  forall (rank : nat) (st : TaskState),
    rank + length (l1 ++ l2) <= length (st_buffers st) ->
    reduce_ranks group ws buffer_size rank (l1 ++ l2) st
    = (st1 <- reduce_ranks group ws buffer_size rank l1 st ;;
       reduce_ranks group ws buffer_size (rank + length l1) l2 st1).
Proof.
  induction l1 as [|params l1 IH]; intros rank st Hlen; simpl.
  - now rewrite Nat.add_0_r.
  - simpl in Hlen.
    destruct (nth_error (st_buffers st) rank) as [buffer|] eqn:Hb.
    2:{ apply nth_error_None in Hb. lia. }
    destruct (reduce_rank group ws buffer_size rank params buffer st)
      as [st1|e] eqn:H1; simpl; [|reflexivity].
    rewrite IH.
    + now replace (S rank + length l1) with (rank + S (length l1)) by lia.
    + erewrite reduce_rank_length by eassumption. lia.
Qed.

(** * The claims *)

Lemma wf_scenario_A_store : wf_store scenario_A_store.
Proof. intros [|[|[|p]]] g; discriminate. Qed.

Lemma wf_small_store : wf_store small_store.
Proof. intros [|[|[|p]]] g; simpl; intros [= <-]; reflexivity. Qed.

(** C2.  Packing, as the iteration of a rank runs it (from offset 0, on the
    store of line 106, into a buffer of the capacity the loop tests
    against), completes; it packs a prefix of the list, each parameter at
    the offset where the previous one ends and each ending below the
    capacity; the parameter after the prefix, if any, does not pass the
    test; the final offset is the size of the prefix and is at most the
    capacity; the buffer keeps its size and holds the gradients of the
    prefix, then what it held before. *)
Theorem packing_within_capacity (s : Store) (buffer_size : nat)
    (params : list ParamId) (buffer : Tensor) :
  wf_store s ->
  tensor_numel buffer = buffer_size ->
  exists i_bucketed offset buffer',
    pack_loop (fill_grads s params) buffer_size params 0 0 buffer
    = Ok (i_bucketed, offset, buffer')
    /\ i_bucketed <= length params
    /\ offset = sum_numel s (firstn i_bucketed params)
    /\ (forall j, j < i_bucketed ->
          sum_numel s (firstn (S j) params) < buffer_size)
    /\ (forall p, nth_error params i_bucketed = Some p ->
          buffer_size <= offset + numel (s p))
    /\ offset <= buffer_size
    /\ tensor_numel buffer' = buffer_size
    /\ data buffer'
       = flat_grads s (firstn i_bucketed params) ++ skipn offset (data buffer).
Proof.
  intros Hwf Hcap.
  destruct (pack_loop_spec (fill_grads s params) buffer_size params 0 0 buffer)
    as (b' & Hpack & _ & _ & Hdata).
  { intros q Hq. rewrite grad_fill_grads_in by assumption. discriminate. }
  rewrite (bucket_len_ext s) in Hpack, Hdata by (intros; apply numel_fill_grads).
  rewrite (sum_numel_ext s) in Hpack, Hdata by (intros; apply numel_fill_grads).
  set (k := bucket_len s buffer_size params 0) in *.
  specialize (Hdata (wf_fill_grads params s Hwf) (Nat.le_0_l _)).
  simpl in Hdata, Hpack.
  rewrite (flat_grads_ext s) in Hdata by (intros; apply filled_fill_grads).
  pose proof (bucket_len_offset s buffer_size params) as Hoff. fold k in Hoff.
  exists k, (sum_numel s (firstn k params)), b'.
  split; [assumption|].
  split; [apply bucket_len_le|].
  split; [reflexivity|].
  split; [intros j Hj; apply (bucket_len_below s buffer_size params 0 j Hj)|].
  split; [intros p Hp; apply (bucket_len_stop s buffer_size params 0 p Hp)|].
  split; [assumption|].
  split; [|assumption].
  unfold tensor_numel in *. rewrite Hdata, length_app, length_skipn.
  rewrite length_flat_grads by assumption. lia.
Qed.

Lemma packing_within_capacity_witness :
  exists i_bucketed offset buffer',
    pack_loop (fill_grads small_store [0; 1; 2]) 5 [0; 1; 2] 0 0 (zeros 5 float32)
    = Ok (i_bucketed, offset, buffer')
    /\ i_bucketed <= length [0; 1; 2]
    /\ offset = sum_numel small_store (firstn i_bucketed [0; 1; 2])
    /\ (forall j, j < i_bucketed ->
          sum_numel small_store (firstn (S j) [0; 1; 2]) < 5)
    /\ (forall p, nth_error [0; 1; 2] i_bucketed = Some p ->
          5 <= offset + numel (small_store p))
    /\ offset <= 5
    /\ tensor_numel buffer' = 5
    /\ data buffer'
       = flat_grads small_store (firstn i_bucketed [0; 1; 2])
         ++ skipn offset (data (zeros 5 float32)).
Proof.
  apply (packing_within_capacity small_store 5 [0; 1; 2] (zeros 5 float32)).
  - exact wf_small_store.
  - reflexivity.
Defined.


Lemma NoDup_012 : NoDup [0; 1; 2].
Proof.
  repeat constructor; simpl; intros H;
    repeat (destruct H as [H|H]; [discriminate|]); exact H.
Qed.


(** C9.  Scenario A: world size 4, capacity 1000, and the list of rank 0
    made of parameters of 10, 20 and 5000 elements, the gradient of the
    third not marked.  Packing ends with a
    packed-prefix length of 2 at offset 30; the iteration of rank 0
    completes and submits one bucket reduction, tagged with rank 0, and one
    direct reduction, that of the third parameter: two operations. *)
Theorem scenario_A (group : Group) (st : TaskState) (a b c : ParamId)
    (buffer : Tensor) :
  let s := st_store st in
  let global_rank := _get_global_rank group 0 in
  numel (s a) = 10 -> numel (s b) = 20 -> numel (s c) = 5000 ->
  tensor_numel buffer = 1000 ->
  nth_error (st_buffers st) 0 = Some buffer ->
  wf_store s ->
  (forall g, grad (s c) = Some g -> requires_grad g = false) ->
  exists st' packed,
    pack_loop (fill_grads s [a; b; c]) 1000 [a; b; c] 0 0 buffer
    = Ok (2, 30, packed)
    /\ reduce_rank group 4 1000 0 [a; b; c] buffer st = Ok st'
    /\ bucket_requests st'
       = bucket_requests st ++ [(mkWork (BufferRef 0) global_rank, 0)]
    /\ requests st' = requests st ++ [mkWork (GradRef c) global_rank]
    /\ length (bucket_requests st') + length (requests st')
       = length (bucket_requests st) + length (requests st) + 2.
Proof.
  intros s global_rank Ha Hb Hc Hcap Hbuf Hwf Hclean.
  assert (Hflag : grad_requires_grad s c = false).
  { unfold grad_requires_grad. destruct (grad (s c)) as [g|]; auto. }
  assert (Hk : bucket_len s 1000 [a; b; c] 0 = 2).
  { unfold bucket_len. rewrite Ha. simpl. rewrite Hb. simpl. rewrite Hc.
    reflexivity. }
  assert (Hsum : sum_numel s (firstn 2 [a; b; c]) = 30).
  { simpl. rewrite Ha, Hb. reflexivity. }
  destruct (pack_loop_spec (fill_grads s [a; b; c]) 1000 [a; b; c] 0 0 buffer)
    as (packed & Hpack & _).
  { intros q Hq. rewrite grad_fill_grads_in by assumption. discriminate. }
  rewrite (bucket_len_ext s) in Hpack by (intros; apply numel_fill_grads).
  rewrite (sum_numel_ext s) in Hpack by (intros; apply numel_fill_grads).
  rewrite Hk, Hsum in Hpack.
  pose proof (reduce_rank_cases group 4 1000 0 [a; b; c] buffer st) as Hcases.
  unfold suffix_flagged in Hcases. fold s in Hcases. rewrite Hk in Hcases.
  simpl in Hcases. rewrite Hflag in Hcases. simpl in Hcases.
  destruct Hcases as (st' & Hst').
  pose proof (reduce_rank_inv _ _ _ _ _ _ _ _ Hbuf Hst') as Hinv.
  cbv zeta in Hinv. fold s in Hinv. rewrite Hk in Hinv.
  destruct Hinv as (Hbr & Hreq & _).
  exists st', packed.
  split; [exact Hpack|]. split; [exact Hst'|].
  split; [exact Hbr|]. split; [exact Hreq|].
  rewrite Hbr, Hreq, !length_app. simpl. lia.
Qed.

Lemma scenario_A_witness :
  exists st' packed,
    pack_loop (fill_grads scenario_A_store [0; 1; 2]) 1000 [0; 1; 2] 0 0
      (zeros 1000 float32)
    = Ok (2, 30, packed)
    /\ reduce_rank WORLD 4 1000 0 [0; 1; 2] (zeros 1000 float32)
         (initial_state scenario_A_store (repeat (zeros 1000 float32) 4)) = Ok st'
    /\ bucket_requests st' = [] ++ [(mkWork (BufferRef 0) 0, 0)]
    /\ requests st' = [] ++ [mkWork (GradRef 2) 0]
    /\ length (bucket_requests st') + length (requests st') = 0 + 0 + 2.
Proof.
  apply (scenario_A WORLD
           (initial_state scenario_A_store (repeat (zeros 1000 float32) 4))
           0 1 2 (zeros 1000 float32)).
  - reflexivity.
  - reflexivity.
  - reflexivity.
  - vm_compute. reflexivity.
  - reflexivity.
  - exact wf_scenario_A_store.
  - discriminate.
Defined.






(** The marked gradient of the example does raise. *)
Example marked_store_raises :
  _reduce_grads_task alone [zeros 2 float32] [[0]] WORLD 0 1 marked_store
  = Raise RuntimeError.
Proof. reflexivity. Qed.

(** A marked gradient in the packed prefix does not. *)
Example marked_store_packed :
  exists st,
    _reduce_grads_task alone [zeros 5 float32] [[0]] WORLD 0 1 marked_store = Ok st
    /\ bucket_requests st = [(mkWork (BufferRef 0) 0, 0)]
    /\ requests st = [].
Proof. eexists. split; [reflexivity|]. split; reflexivity. Qed.

(** C10.  In a completed task on well-shaped tensors, over lists that
    share no parameter, a packed
    parameter of a rank other than the calling rank has, at the end, the
    gradient it had when packing began (the one line 106 left in its slot),
    and the parameter itself is as it was at the start if its slot was not
    empty.  The iteration of the loop over the bucket handles for a handle
    tagged with another rank leaves the store as it is: only the iteration
    of the calling rank unpacks. *)
Theorem other_ranks_not_unpacked (transport : Transport) (b0 : Tensor)
    (rest : list Tensor) (per_rank_params : list (list ParamId))
    (group : Group) (self_rank ws : nat) (s : Store) (st : TaskState) :
  let buffers := b0 :: rest in
  let buffer_size := tensor_numel b0 in
  length per_rank_params <= length buffers ->
  Forall (fun b => tensor_numel b = buffer_size) buffers ->
  wf_store s ->
  NoDup (concat per_rank_params) ->
  _reduce_grads_task transport buffers per_rank_params group self_rank ws s = Ok st ->
  (forall r params q,
     r <> self_rank ->
     nth_error per_rank_params r = Some params ->
     In q (firstn (bucket_len s buffer_size params 0) params) ->
     grad (st_store st q) = Some (filled (s q))
     /\ (grad (s q) <> None -> st_store st q = s q))
  /\ (forall w r breqs s' buffers',
        r <> self_rank ->
        work_tensor w = BufferRef r ->
        wait_buckets transport self_rank buffer_size per_rank_params
          ((w, r) :: breqs) s' buffers'
        = wait_buckets transport self_rank buffer_size per_rank_params
            breqs s' (snd (wait transport w s' buffers'))).
Proof.
  intros buffers buffer_size Hlen Hsizes Hwf Hnd Htask. split.
  - intros r params q Hr Hparams Hq.
    pose proof (task_final_packed_other transport b0 rest per_rank_params group
                  self_rank ws s st Hlen Hnd Htask r params q Hr Hparams Hq) as Hg.
    split; [exact Hg|].
    intros Hpresent.
    pose proof (task_final_shape transport b0 rest per_rank_params group
                  self_rank ws s st Hlen Htask) as [Hn Hd _ _].
    specialize (Hn q). specialize (Hd q).
    unfold filled in Hg.
    destruct (grad (s q)) as [g|] eqn:Hsq; [|contradiction].
    destruct (st_store st q) as [n d g']. destruct (s q) as [n0 d0 g0].
    simpl in *. congruence.
  - intros w r breqs s' buffers' Hr Hw. simpl.
    unfold wait. rewrite Hw.
    destruct (nth_error buffers' r) as [b|]; simpl;
      destruct (Nat.eqb_spec r self_rank); try contradiction; reflexivity.
Qed.


(** ** Construction of the buffers *)

(** C4, as stated, fails: with one parameter of 10 elements on [cpu], one of
    20 elements on [cuda 0] and a ceiling of 1000, the buffer of [cpu] does
    not have the 10 elements of the parameters of [cpu]; it has 30. *)
Lemma capacity_per_device_counterexample :
  exists m buffers b,
    ModelDispatch_init two_device_store [0; 1]
      [(cpu, [[0]]); (cuda 0, [[1]])] WORLD 0 1 1000 = Ok m
    /\ dict_get (_reduce_buffers m) cpu = Ok buffers
    /\ In b buffers
    /\ tensor_numel b = 30
    /\ Z.of_nat (tensor_numel b)
       <> Z.min 1000 (Z.of_nat (sum_numel two_device_store (concat [[0]]))).
Proof.
  eexists. eexists. eexists.
  split; [reflexivity|]. split; [reflexivity|].
  split; [left; reflexivity|]. split; [reflexivity|].
  vm_compute. discriminate.
Qed.

(** C4, amended.  When the ceiling is not negative and rank 0 has a
    parameter on every device, construction completes, every device of the
    partition has one buffer per rank, and every buffer has a capacity of
    min(ceiling, number of elements of all the parameters of the base
    model), whatever the device. *)
Theorem capacity_of_buffers (s : Store) (base_model : list ParamId)
    (items : Dict (list (list ParamId))) (group : Group)
    (self_rank group_size : nat) (ceiling : Z) :
  (0 <= ceiling)%Z ->
  (forall device per_device, In (device, per_device) items ->
     exists p ps rest, per_device = (p :: ps) :: rest) ->
  NoDup (map fst items) ->
  exists m,
    ModelDispatch_init s base_model items group self_rank group_size ceiling = Ok m
    /\ (forall device per_device,
          In (device, per_device) items ->
          exists buffers,
            dict_get (_reduce_buffers m) device = Ok buffers
            /\ length buffers = length per_device)
    /\ (forall device buffers b,
          In (device, buffers) (_reduce_buffers m) ->
          In b buffers ->
          Z.of_nat (tensor_numel b)
          = Z.min ceiling (Z.of_nat (sum_numel s base_model))).
Proof.
  intros Hpos Hne Hnd. unfold ModelDispatch_init.
  set (C := Z.min ceiling (Z.of_nat (sum_numel s base_model))).
  assert (HC : (0 <= C)%Z) by (unfold C; lia).
  destruct (alloc_buffers_ok s C items HC Hne []) as (rb & Hrb).
  rewrite Hrb. simpl. eexists. split; [reflexivity|]. simpl. split.
  - intros device per_device Hin.
    destruct (Hne device per_device Hin) as (p & ps & rest & ->).
    rewrite (alloc_buffers_get s C items Hnd _ _ Hrb device p ps rest Hin).
    eexists. split; [reflexivity|]. unfold device_buffers. apply length_map.
  - intros device buffers b Hin Hb.
    destruct (alloc_buffers_inv s C items _ _ Hrb device buffers Hin)
      as [[]|(p & ps & rest & _ & _ & ->)].
    unfold device_buffers in Hb. apply in_map_iff in Hb.
    destruct Hb as (x & <- & _).
    unfold tensor_numel, zeros. simpl. rewrite repeat_length. lia.
Qed.

Lemma capacity_of_buffers_witness :
  exists m,
    ModelDispatch_init two_device_store [0; 1]
      [(cpu, [[0]]); (cuda 0, [[1]])] WORLD 0 1 1000 = Ok m
    /\ (forall device per_device,
          In (device, per_device) [(cpu, [[0]]); (cuda 0, [[1]])] ->
          exists buffers,
            dict_get (_reduce_buffers m) device = Ok buffers
            /\ length buffers = length per_device)
    /\ (forall device buffers b,
          In (device, buffers) (_reduce_buffers m) ->
          In b buffers ->
          Z.of_nat (tensor_numel b)
          = Z.min 1000 (Z.of_nat (sum_numel two_device_store [0; 1]))).
Proof.
  apply (capacity_of_buffers two_device_store [0; 1]
           [(cpu, [[0]]); (cuda 0, [[1]])] WORLD 0 1 1000).
  - lia.
  - intros device per_device [[= <- <-]|[[= <- <-]|[]]]; eauto.
  - simpl. repeat constructor; simpl; intuition discriminate.
Defined.

(** C5, as stated, fails: two parameters of different types on one device,
    and construction completes. *)
Lemma dtype_mismatch_counterexample :
  dtype (mixed_dtype_store 0) <> dtype (mixed_dtype_store 1)
  /\ exists m,
       ModelDispatch_init mixed_dtype_store [0; 1] [(cpu, [[0; 1]])] WORLD 0 1 1000
       = Ok m.
Proof. split; [discriminate|]. eexists. reflexivity. Qed.

(** C5, amended.  Construction does not compare types.  When the ceiling is
    not negative and rank 0 has a parameter on every device, it completes,
    whatever the types of the parameters, and the buffers of a device have
    the type of the first parameter of rank 0 on that device. *)
Theorem construction_takes_first_dtype (s : Store) (base_model : list ParamId)
    (items : Dict (list (list ParamId))) (group : Group)
    (self_rank group_size : nat) (ceiling : Z) :
  (0 <= ceiling)%Z ->
  (forall device per_device, In (device, per_device) items ->
     exists p ps rest, per_device = (p :: ps) :: rest) ->
  NoDup (map fst items) ->
  exists m,
    ModelDispatch_init s base_model items group self_rank group_size ceiling = Ok m
    /\ forall device p ps rest,
         In (device, (p :: ps) :: rest) items ->
         exists buffers,
           dict_get (_reduce_buffers m) device = Ok buffers
           /\ forall b, In b buffers -> tensor_dtype b = dtype (s p).
Proof.
  intros Hpos Hne Hnd. unfold ModelDispatch_init.
  set (C := Z.min ceiling (Z.of_nat (sum_numel s base_model))).
  assert (HC : (0 <= C)%Z) by (unfold C; lia).
  destruct (alloc_buffers_ok s C items HC Hne []) as (rb & Hrb).
  rewrite Hrb. simpl. eexists. split; [reflexivity|]. simpl.
  intros device p ps rest Hin.
  rewrite (alloc_buffers_get s C items Hnd _ _ Hrb device p ps rest Hin).
  eexists. split; [reflexivity|].
  intros b Hb. unfold device_buffers in Hb. apply in_map_iff in Hb.
  now destruct Hb as (x & <- & _).
Qed.

Lemma construction_takes_first_dtype_witness :
  exists m,
    ModelDispatch_init mixed_dtype_store [0; 1] [(cpu, [[0; 1]])] WORLD 0 1 1000
    = Ok m
    /\ forall device p ps rest,
         In (device, (p :: ps) :: rest) [(cpu, [[0; 1]])] ->
         exists buffers,
           dict_get (_reduce_buffers m) device = Ok buffers
           /\ forall b, In b buffers -> tensor_dtype b = dtype (mixed_dtype_store p).
Proof.
  apply (construction_takes_first_dtype mixed_dtype_store [0; 1]
           [(cpu, [[0; 1]])] WORLD 0 1 1000).
  - lia.
  - intros device per_device [[= <- <-]|[]]; eauto.
  - simpl. repeat constructor; simpl; intuition.
Defined.

(** C6, as stated, fails: after one dispatch the buffer of rank 0 holds the
    bucket of that dispatch, and this is the buffer in which the packing of
    rank 0 of the next dispatch begins. *)
Lemma buffers_not_zeroed_counterexample :
  exists m s1 m1 buffers b,
    ModelDispatch_init small_store [0; 1; 2] [(cpu, [[0; 1; 2]])] WORLD 0 1 1000
    = Ok m
    /\ dispatch_grads (fun _ => alone) m small_store = Ok (s1, m1)
    /\ dict_get (_reduce_buffers m1) cpu = Ok buffers
    /\ nth_error buffers 0 = Some b
    /\ data b = [4%Q; 0%Q; 0%Q; 0%Q; 0%Q; 0%Q]
    /\ ~ Forall (fun x => (x == 0)%Q) (data b).
Proof.
  eexists. eexists. eexists. eexists. eexists.
  split; [reflexivity|]. split; [reflexivity|]. split; [reflexivity|].
  split; [reflexivity|]. split; [reflexivity|].
  simpl. intros H. inversion H as [|x l Hx Hl]; subst.
  discriminate Hx.
Qed.

(** C6, amended.  The buffers are all zero when construction ends, and in
    the task that first runs on them: when the loop over the ranks reaches
    a rank, having completed the iterations of the ranks below, the buffer
    of that rank is still all zero.  Nothing zeroes a buffer afterwards. *)
Theorem buffers_zero_at_construction (s : Store) (base_model : list ParamId)
    (items : Dict (list (list ParamId))) (group : Group)
    (self_rank group_size : nat) (ceiling : Z) :
  (0 <= ceiling)%Z ->
  (forall device per_device, In (device, per_device) items ->
     exists p ps rest, per_device = (p :: ps) :: rest) ->
  NoDup (map fst items) ->
  exists m,
    ModelDispatch_init s base_model items group self_rank group_size ceiling = Ok m
    /\ (forall device buffers b,
          In (device, buffers) (_reduce_buffers m) ->
          In b buffers ->
          data b = repeat 0%Q (tensor_numel b))
    /\ (forall device per_device,
          In (device, per_device) items ->
          exists buffers,
            dict_get (_reduce_buffers m) device = Ok buffers
            /\ forall s' ws buffer_size r params st_r,
                 nth_error per_device r = Some params ->
                 reduce_ranks group ws buffer_size 0 (firstn r per_device)
                   (initial_state s' buffers) = Ok st_r ->
                 exists b,
                   nth_error (st_buffers st_r) r = Some b
                   /\ data b = repeat 0%Q (tensor_numel b)
                   /\ reduce_ranks group ws buffer_size 0 per_device
                        (initial_state s' buffers)
                      = (st' <- reduce_rank group ws buffer_size r params b st_r ;;
                         reduce_ranks group ws buffer_size (S r)
                           (skipn (S r) per_device) st')).
Proof.
  intros Hpos Hne Hnd. unfold ModelDispatch_init.
  set (C := Z.min ceiling (Z.of_nat (sum_numel s base_model))).
  assert (HC : (0 <= C)%Z) by (unfold C; lia).
  destruct (alloc_buffers_ok s C items HC Hne []) as (rb & Hrb).
  rewrite Hrb. simpl. eexists. split; [reflexivity|]. simpl.
  assert (Hzero : forall per_device p b,
             In b (device_buffers s C per_device p) ->
             data b = repeat 0%Q (tensor_numel b)).
  { intros per_device p b Hb. unfold device_buffers in Hb.
    apply in_map_iff in Hb. destruct Hb as (x & <- & _).
    unfold tensor_numel, zeros. simpl. now rewrite repeat_length. }
  split.
  - intros device buffers b Hin Hb.
    destruct (alloc_buffers_inv s C items _ _ Hrb device buffers Hin)
      as [[]|(p & ps & rest & _ & _ & ->)].
    eapply Hzero; eassumption.
  - intros device per_device Hin.
    destruct (Hne device per_device Hin) as (p & ps & rest & ->).
    rewrite (alloc_buffers_get s C items Hnd _ _ Hrb device p ps rest Hin).
    set (per_device := (p :: ps) :: rest) in *.
    set (buffers := device_buffers s C per_device p).
    exists buffers. split; [reflexivity|].
    intros s' ws buffer_size r params st_r Hr Hst.
    assert (Hlenb : length buffers = length per_device)
      by (unfold buffers, device_buffers; apply length_map).
    assert (Hrlt : r < length per_device) by (apply nth_error_Some; congruence).
    assert (Hlenf : length (firstn r per_device) = r)
      by (rewrite length_firstn; lia).
    assert (Hlen0 : 0 + length (firstn r per_device)
                    <= length (st_buffers (initial_state s' buffers)))
      by (change (0 + length (firstn r per_device) <= length buffers); lia).
    pose proof (reduce_ranks_frame _ _ _ _ _ _ _ Hlen0 Hst) as (_ & Hframe & _).
    assert (Hr' : r < 0 \/ 0 + length (firstn r per_device) <= r) by lia.
    specialize (Hframe r Hr').
    change (st_buffers (initial_state s' buffers)) with buffers in Hframe.
    destruct (nth_error buffers r) as [b|] eqn:Hb.
    2:{ apply nth_error_None in Hb. lia. }
    exists b. split; [assumption|]. split.
    + apply (Hzero per_device p). eapply nth_error_In; eassumption.
    + destruct (nth_error_split_firstn _ _ _ Hr) as (_ & Hsplit).
      rewrite Hsplit at 1.
      rewrite reduce_ranks_app.
      2:{ rewrite <- Hsplit.
          change (0 + length per_device <= length buffers). lia. }
      rewrite Hst. cbn [bind reduce_ranks]. rewrite Hlenf.
      change (0 + r) with r. rewrite Hframe. reflexivity.
Qed.

Lemma buffers_zero_at_construction_witness :
  exists m,
    ModelDispatch_init small_store [0; 1; 2] [(cpu, [[0; 1; 2]])] WORLD 0 1 1000
    = Ok m
    /\ (forall device buffers b,
          In (device, buffers) (_reduce_buffers m) ->
          In b buffers ->
          data b = repeat 0%Q (tensor_numel b))
    /\ (forall device per_device,
          In (device, per_device) [(cpu, [[0; 1; 2]])] ->
          exists buffers,
            dict_get (_reduce_buffers m) device = Ok buffers
            /\ forall s' ws buffer_size r params st_r,
                 nth_error per_device r = Some params ->
                 reduce_ranks WORLD ws buffer_size 0 (firstn r per_device)
                   (initial_state s' buffers) = Ok st_r ->
                 exists b,
                   nth_error (st_buffers st_r) r = Some b
                   /\ data b = repeat 0%Q (tensor_numel b)
                   /\ reduce_ranks WORLD ws buffer_size 0 per_device
                        (initial_state s' buffers)
                      = (st' <- reduce_rank WORLD ws buffer_size r params b st_r ;;
                         reduce_ranks WORLD ws buffer_size (S r)
                           (skipn (S r) per_device) st')).
Proof.
  apply (buffers_zero_at_construction small_store [0; 1; 2]
           [(cpu, [[0; 1; 2]])] WORLD 0 1 1000).
  - lia.
  - intros device per_device [[= <- <-]|[]]; eauto.
  - simpl. repeat constructor; simpl; intuition.
Defined.

(** ** A group of two ranks *)


Lemma NoDup_two_rank_params : NoDup (concat two_rank_params).
Proof. exact NoDup_012. Qed.

(** What rank 1 holds at the end (in lowest terms): the gradient of
    parameter 0, which rank 0 owns, is its local one; those of parameters 1
    and 2 are the halves of the sums over the two ranks. *)
Example two_rank_final_grads :
  map (fun p => option_map (fun g => map Qred (data g))
                           (grad (st_store two_rank_final p))) [0; 1; 2]
  = [Some [4%Q];
     Some [1%Q; 2%Q];
     Some [(1 # 2)%Q; 1%Q; (3 # 2)%Q]].
Proof. vm_compute. reflexivity. Qed.


Lemma other_ranks_not_unpacked_witness :
  (forall r params q,
     r <> 1 ->
     nth_error two_rank_params r = Some params ->
     In q (firstn (bucket_len small_store 5 params 0) params) ->
     grad (st_store two_rank_final q) = Some (filled (small_store q))
     /\ (grad (small_store q) <> None -> st_store two_rank_final q = small_store q))
  /\ (forall w r breqs s' buffers',
        r <> 1 ->
        work_tensor w = BufferRef r ->
        wait_buckets (reduce_transport 1 [peer_submitted]) 1 5 two_rank_params
          ((w, r) :: breqs) s' buffers'
        = wait_buckets (reduce_transport 1 [peer_submitted]) 1 5 two_rank_params
            breqs s' (snd (wait (reduce_transport 1 [peer_submitted]) w s' buffers'))).
Proof.
  apply (other_ranks_not_unpacked (reduce_transport 1 [peer_submitted])
           (zeros 5 float32) [zeros 5 float32] two_rank_params WORLD 1 2
           small_store two_rank_final).
  - simpl. lia.
  - repeat constructor.
  - exact wf_small_store.
  - exact NoDup_two_rank_params.
  - reflexivity.
Defined.

(** * Further properties of the reducer *)

(** ** What the packing loop packs *)

Lemma bucket_len_all (s : Store) (buffer_size : nat) (rest : list ParamId) :
  forall offset,
    bucket_len s buffer_size rest offset = length rest
    <-> rest = [] \/ offset + sum_numel s rest < buffer_size.
Proof.
  induction rest as [|p rest IH]; intros offset; simpl.
  - split; auto.
  - destruct (Nat.ltb_spec (offset + numel (s p)) buffer_size) as [Hlt|Hge].
    + split.
      * intros [= H]. right. apply IH in H. destruct H as [->|H]; simpl; lia.
      * intros [H|H]; [discriminate|]. f_equal. apply IH. right. lia.
    + split; [discriminate|]. intros [H|H]; [discriminate | lia].
Qed.

Lemma skipn_nil_iff {A : Type} (l : list A) (n : nat) :
  skipn n l = [] <-> length l <= n.
Proof.
  split.
  - intros H. pose proof (length_skipn n l) as Hl. rewrite H in Hl. simpl in Hl. lia.
  - apply skipn_all2.
Qed.

(** X1.  The iteration of a rank submits no direct reduction exactly when its
    list is empty or the sizes of its list add up to less than the
    capacity.  A list whose sizes add up to the capacity or more always has
    a direct reduction, even when each half of it would fit. *)
Theorem bucket_holds_all_iff (group : Group) (ws buffer_size rank : nat)
    (params : list ParamId) (buffer : Tensor) (st st' : TaskState) :
  nth_error (st_buffers st) rank = Some buffer ->
  reduce_rank group ws buffer_size rank params buffer st = Ok st' ->
  (requests st' = requests st
   <-> params = [] \/ sum_numel (st_store st) params < buffer_size).
Proof.
  intros Hbuf H.
  pose proof (reduce_rank_inv _ _ _ _ _ _ _ _ Hbuf H) as Hinv. cbv zeta in Hinv.
  destruct Hinv as (_ & Hreq & _).
  rewrite <- (bucket_len_all (st_store st) buffer_size params 0).
  rewrite Hreq. unfold direct_works. split.
  - intros Heq.
    assert (Hnil : skipn (bucket_len (st_store st) buffer_size params 0) params = []).
    { apply (f_equal (@length Work)) in Heq.
      rewrite length_app, length_map in Heq.
      apply length_zero_iff_nil. lia. }
    apply skipn_nil_iff in Hnil.
    pose proof (bucket_len_le (st_store st) buffer_size params 0). lia.
  - intros Hk. rewrite Hk, skipn_all. simpl. apply app_nil_r.
Qed.

Lemma bucket_holds_all_iff_witness :
  requests
    (match reduce_rank WORLD 2 7 0 [0; 1; 2] (zeros 7 float32)
             (initial_state small_store [zeros 7 float32]) with
     | Ok st' => st'
     | Raise _ => initial_state small_store []
     end)
  = requests (initial_state small_store [zeros 7 float32])
  <-> [0; 1; 2] = []
      \/ sum_numel (st_store (initial_state small_store [zeros 7 float32])) [0; 1; 2]
         < 7.
Proof.
  apply (bucket_holds_all_iff WORLD 2 7 0 [0; 1; 2] (zeros 7 float32)
           (initial_state small_store [zeros 7 float32])).
  - reflexivity.
  - reflexivity.
Defined.

Lemma StronglySorted_skipn {A : Type} (R : A -> A -> Prop) (l : list A) (n : nat) :
  StronglySorted R l -> StronglySorted R (skipn n l).
Proof.
  revert l. induction n as [|n IH]; intros l H; [assumption|].
  destruct l as [|x l]; [assumption|]. simpl. apply IH.
  now inversion H.
Qed.

(** X2.  On a list sorted by size, smallest first, the one pass loses nothing:
    when packing stops, no parameter that is left would have passed the
    test at the final offset. *)
Theorem sorted_packing_is_maximal (s : Store) (buffer_size : nat)
    (params : list ParamId) (buffer : Tensor)
    (i_bucketed offset : nat) (packed : Tensor) :
  StronglySorted (fun p q => numel (s p) <= numel (s q)) params ->
  pack_loop (fill_grads s params) buffer_size params 0 0 buffer
  = Ok (i_bucketed, offset, packed) ->
  forall j q,
    i_bucketed <= j -> nth_error params j = Some q ->
    buffer_size <= offset + numel (s q).
Proof.
  intros Hsorted Hpack j q Hj Hq.
  destruct (pack_loop_spec (fill_grads s params) buffer_size params 0 0 buffer)
    as (b' & Hspec & _).
  { intros x Hx. rewrite grad_fill_grads_in by assumption. discriminate. }
  rewrite (bucket_len_ext s) in Hspec by (intros; apply numel_fill_grads).
  rewrite (sum_numel_ext s) in Hspec by (intros; apply numel_fill_grads).
  rewrite Hspec in Hpack. simpl in Hpack. injection Hpack as <- <- _.
  set (k := bucket_len s buffer_size params 0) in *.
  assert (Hpos : nth_error (skipn k params) (j - k) = Some q).
  { rewrite nth_error_skipn. now replace (k + (j - k)) with j by lia. }
  destruct (skipn k params) as [|pk tail] eqn:Hskip.
  { destruct (j - k); discriminate. }
  assert (Hpk : nth_error params k = Some pk).
  { rewrite <- (Nat.add_0_r k), <- nth_error_skipn, Hskip. reflexivity. }
  pose proof (bucket_len_stop s buffer_size params 0 pk Hpk) as Hstop.
  fold k in Hstop. simpl in Hstop.
  assert (Hle : numel (s pk) <= numel (s q)).
  { pose proof (StronglySorted_skipn _ params k Hsorted) as Hs.
    rewrite Hskip in Hs. inversion Hs as [|? ? _ Hall]; subst.
    destruct (j - k) as [|i]; simpl in Hpos.
    - injection Hpos as <-. lia.
    - rewrite Forall_forall in Hall. apply Hall.
      eapply nth_error_In; eassumption. }
  lia.
Qed.

Lemma sorted_packing_is_maximal_witness :
  StronglySorted (fun p q => numel (small_store p) <= numel (small_store q))
    [0; 1; 2]
  /\ (forall j q,
        2 <= j -> nth_error [0; 1; 2] j = Some q ->
        5 <= 3 + numel (small_store q)).
Proof.
  assert (Hsorted : StronglySorted
                      (fun p q => numel (small_store p) <= numel (small_store q))
                      [0; 1; 2])
    by (repeat constructor; simpl; lia).
  split; [exact Hsorted|].
  apply (sorted_packing_is_maximal small_store 5 [0; 1; 2] (zeros 5 float32) 2 3
           (mkTensor [4%Q; 0%Q; 0%Q; 0%Q; 0%Q] float32 false)).
  - exact Hsorted.
  - reflexivity.
Defined.

(** Without the order the one pass can leave out a parameter that fits. *)
Example unsorted_packing_skips_a_fit :
  exists i_bucketed offset packed,
    pack_loop (fill_grads small_store [2; 1; 0]) 5 [2; 1; 0] 0 0 (zeros 5 float32)
    = Ok (i_bucketed, offset, packed)
    /\ i_bucketed = 1
    /\ nth_error [2; 1; 0] 2 = Some 0
    /\ offset + numel (small_store 0) < 5.
Proof. do 3 eexists. split; [reflexivity|]. repeat split. simpl. lia. Qed.

(** ** The operations a task submits *)

Lemma all_bucket_works_ext (group : Group) (s s' : Store) (buffer_size : nat)
    (per_rank_params : list (list ParamId)) :
  (forall q, numel (s' q) = numel (s q)) ->
  forall rank, all_bucket_works group s' buffer_size rank per_rank_params
               = all_bucket_works group s buffer_size rank per_rank_params.
Proof.
  intros H. induction per_rank_params as [|params rest IH]; intros rank; simpl.
  - reflexivity.
  - now rewrite IH, (bucket_len_ext s s').
Qed.

Lemma all_direct_works_ext (group : Group) (s s' : Store) (buffer_size : nat)
    (per_rank_params : list (list ParamId)) :
  (forall q, numel (s' q) = numel (s q)) ->
  forall rank, all_direct_works group s' buffer_size rank per_rank_params
               = all_direct_works group s buffer_size rank per_rank_params.
Proof.
  intros H. induction per_rank_params as [|params rest IH]; intros rank; simpl.
  - reflexivity.
  - now rewrite IH, (bucket_len_ext s s').
Qed.

Lemma submit_all_works (buffers : list Tensor)
    (per_rank_params : list (list ParamId)) (group : Group) (ws : nat)
    (s : Store) (buffer_size : nat) (st : TaskState) :
  length per_rank_params <= length buffers ->
  submit_all buffers per_rank_params group ws s = Ok (buffer_size, st) ->
  bucket_requests st = all_bucket_works group s buffer_size 0 per_rank_params
  /\ requests st = all_direct_works group s buffer_size 0 per_rank_params.
Proof.
  intros Hlen Hs. apply submit_all_inv in Hs.
  destruct Hs as (b0 & rest & -> & -> & Hs).
  assert (Hlen0 : 0 + length per_rank_params
                  <= length (st_buffers (initial_state s (b0 :: rest))))
    by exact Hlen.
  exact (reduce_ranks_works _ _ _ _ _ _ _ Hlen0 Hs).
Qed.

(** X3.  Structural agreement.  Two ranks that hold parameters of the same sizes
    and buffers of the same capacity, and complete their submissions, have
    submitted the same operations in the same order, whatever their
    gradients are and whichever are absent. *)
Theorem ranks_submit_the_same (buffers1 buffers2 : list Tensor)
    (per_rank_params : list (list ParamId)) (group : Group) (ws : nat)
    (s1 s2 : Store) (buffer_size : nat) (st1 st2 : TaskState) :
  (forall q, numel (s1 q) = numel (s2 q)) ->
  length per_rank_params <= length buffers1 ->
  length per_rank_params <= length buffers2 ->
  submit_all buffers1 per_rank_params group ws s1 = Ok (buffer_size, st1) ->
  submit_all buffers2 per_rank_params group ws s2 = Ok (buffer_size, st2) ->
  bucket_requests st1 = bucket_requests st2 /\ requests st1 = requests st2.
Proof.
  intros Hnum Hl1 Hl2 H1 H2.
  destruct (submit_all_works _ _ _ _ _ _ _ Hl1 H1) as (Hb1 & Hr1).
  destruct (submit_all_works _ _ _ _ _ _ _ Hl2 H2) as (Hb2 & Hr2).
  rewrite Hb1, Hb2, Hr1, Hr2.
  rewrite (all_bucket_works_ext group s2 s1) by assumption.
  rewrite (all_direct_works_ext group s2 s1) by assumption.
  auto.
Qed.

Lemma ranks_submit_the_same_witness :
  bucket_requests
    (match submit_all two_rank_buffers two_rank_params WORLD 2 small_store with
     | Ok (_, st) => st
     | Raise _ => initial_state small_store []
     end)
  = bucket_requests peer_submitted
  /\ requests
       (match submit_all two_rank_buffers two_rank_params WORLD 2 small_store with
        | Ok (_, st) => st
        | Raise _ => initial_state small_store []
        end)
     = requests peer_submitted.
Proof.
  apply (ranks_submit_the_same two_rank_buffers two_rank_buffers two_rank_params
           WORLD 2 small_store peer_store 5).
  - intros [|[|[|q]]]; reflexivity.
  - simpl. lia.
  - simpl. lia.
  - reflexivity.
  - reflexivity.
Defined.

Lemma works_count (group : Group) (s : Store) (buffer_size : nat)
    (per_rank_params : list (list ParamId)) :
  forall rank,
    length (all_bucket_works group s buffer_size rank per_rank_params)
    + length (all_direct_works group s buffer_size rank per_rank_params)
    <= length (concat per_rank_params)
    /\ length (all_bucket_works group s buffer_size rank per_rank_params)
       <= length per_rank_params.
Proof.
  induction per_rank_params as [|params rest IH]; intros rank; simpl; [lia|].
  destruct (IH (S rank)) as (IH1 & IH2).
  rewrite !length_app. unfold bucket_works, direct_works.
  rewrite length_map, length_skipn.
  pose proof (bucket_len_le s buffer_size params 0) as Hk.
  destruct (Nat.ltb_spec 0 (bucket_len s buffer_size params 0)); simpl; lia.
Qed.

(** X4.  Bucketing never costs an operation: a completed task has submitted at
    most one operation per listed parameter, and at most one bucket per
    rank. *)
Theorem at_most_one_operation_per_parameter (transport : Transport)
    (buffers : list Tensor) (per_rank_params : list (list ParamId))
    (group : Group) (self_rank ws : nat) (s : Store) (st : TaskState) :
  length per_rank_params <= length buffers ->
  _reduce_grads_task transport buffers per_rank_params group self_rank ws s = Ok st ->
  length (bucket_requests st) + length (requests st)
  <= length (concat per_rank_params)
  /\ length (bucket_requests st) <= length per_rank_params.
Proof.
  intros Hlen Htask.
  destruct (task_inv _ _ _ _ _ _ _ _ Htask)
    as (C & st0 & s1 & b1 & Hs & _ & _ & Hbr & Hreq).
  destruct (submit_all_works _ _ _ _ _ _ _ Hlen Hs) as (Hb0 & Hr0).
  rewrite Hbr, Hreq, Hb0, Hr0. apply works_count.
Qed.

Lemma at_most_one_operation_per_parameter_witness :
  length (bucket_requests two_rank_final) + length (requests two_rank_final)
  <= length (concat two_rank_params)
  /\ length (bucket_requests two_rank_final) <= length two_rank_params.
Proof.
  apply (at_most_one_operation_per_parameter (reduce_transport 1 [peer_submitted])
           two_rank_buffers two_rank_params WORLD 1 2 small_store two_rank_final).
  - simpl. lia.
  - reflexivity.
Defined.

(** ** What a task keeps *)

(** X5.  A completed task changes neither the size nor the type of a parameter,
    neither removes a gradient nor changes its mark, and does not touch a
    parameter that is in no list. *)
Theorem task_never_changes (transport : Transport) (b0 : Tensor)
    (rest : list Tensor) (per_rank_params : list (list ParamId))
    (group : Group) (self_rank ws : nat) (s : Store) (st : TaskState) :
  length per_rank_params <= length (b0 :: rest) ->
  _reduce_grads_task transport (b0 :: rest) per_rank_params group self_rank ws s
  = Ok st ->
  (forall q,
     numel (st_store st q) = numel (s q)
     /\ dtype (st_store st q) = dtype (s q)
     /\ (grad (s q) <> None -> grad (st_store st q) <> None)
     /\ grad_requires_grad (st_store st) q = grad_requires_grad s q)
  /\ (forall q, ~ In q (concat per_rank_params) -> st_store st q = s q).
Proof.
  intros Hlen Htask. split.
  - intros q.
    destruct (task_final_shape transport b0 rest per_rank_params group self_rank
                ws s st Hlen Htask) as [Hn Hd Hf Hp].
    auto.
  - exact (task_final_outside transport b0 rest per_rank_params group self_rank
             ws s st Hlen Htask).
Qed.

Lemma task_never_changes_witness :
  (forall q,
     numel (st_store two_rank_final q) = numel (small_store q)
     /\ dtype (st_store two_rank_final q) = dtype (small_store q)
     /\ (grad (small_store q) <> None -> grad (st_store two_rank_final q) <> None)
     /\ grad_requires_grad (st_store two_rank_final) q
        = grad_requires_grad small_store q)
  /\ (forall q, ~ In q (concat two_rank_params) ->
                st_store two_rank_final q = small_store q).
Proof.
  apply (task_never_changes (reduce_transport 1 [peer_submitted])
           (zeros 5 float32) [zeros 5 float32] two_rank_params WORLD 1 2
           small_store two_rank_final).
  - simpl. lia.
  - reflexivity.
Defined.

Lemma Forall_update_nth {A : Type} (P : A -> Prop) (l : list A) (i : nat) (x : A) :
  Forall P l -> P x -> Forall P (update_nth l i x).
Proof.
  intros Hl Hx. revert i. induction Hl as [|y l Hy Hl IH]; intros [|i]; simpl;
    constructor; auto.
Qed.

Lemma length_bucket_data (s : Store) (ws buffer_size : nat) (params : list ParamId)
    (old : list Q) :
  wf_store s -> length old = buffer_size ->
  length (bucket_data s ws buffer_size params old) = buffer_size.
Proof.
  intros Hwf Hold. unfold bucket_data.
  destruct (0 <? bucket_len s buffer_size params 0); [|assumption].
  rewrite length_map, length_app, length_skipn, length_flat_grads by assumption.
  pose proof (bucket_len_offset s buffer_size params). lia.
Qed.

Lemma reduce_ranks_sizes (group : Group) (ws buffer_size : nat)
    (per_rank_params : list (list ParamId)) :
  forall (rank : nat) (st st' : TaskState),
    rank + length per_rank_params <= length (st_buffers st) ->
    wf_store (st_store st) ->
    Forall (fun b => tensor_numel b = buffer_size) (st_buffers st) ->
    reduce_ranks group ws buffer_size rank per_rank_params st = Ok st' ->
    Forall (fun b => tensor_numel b = buffer_size) (st_buffers st').
Proof.
  induction per_rank_params as [|params rest IH]; intros rank st st' Hlen Hwf Hsz H.
  - now injection H as <-.
  - ranks_step H. simpl in Hlen.
    apply (IH (S rank) st1); try assumption.
    + lia.
    + eapply reduce_rank_wf; eassumption.
    + destruct Hinv1 as (_ & _ & _ & _ & _ & _ & _ & _ & _ & _ & _
                         & b' & -> & _ & _ & Hdata).
      apply Forall_update_nth; [assumption|].
      unfold tensor_numel. rewrite (Hdata Hwf).
      apply length_bucket_data; [assumption|].
      rewrite Forall_forall in Hsz. apply Hsz.
      eapply nth_error_In; eassumption.
Qed.

Lemma wait_keeps (transport : Transport) (buffer_size : nat) (w : Work)
    (s s' : Store) (buffers buffers' : list Tensor) :
  (forall w l, length (transport w l) = length l) ->
  wait transport w s buffers = (s', buffers') ->
  (wf_store s -> wf_store s')
  /\ (Forall (fun b => tensor_numel b = buffer_size) buffers ->
      Forall (fun b => tensor_numel b = buffer_size) buffers').
Proof.
  intros HT. unfold wait. destruct (work_tensor w) as [r|p].
  - destruct (nth_error buffers r) as [b|] eqn:Hb; intros [= <- <-];
      split; auto.
    intros Hsz. apply Forall_update_nth; [assumption|].
    unfold tensor_numel. simpl. rewrite HT.
    rewrite Forall_forall in Hsz. apply Hsz. eapply nth_error_In; eassumption.
  - destruct (grad (s p)) as [g|] eqn:Hg; intros [= <- <-]; split; auto.
    intros Hwf. apply wf_set_grad; [assumption|].
    simpl. rewrite HT. now apply Hwf.
Qed.

Lemma length_slice (l : list Q) (offset end_ : nat) :
  end_ <= length l -> length (slice l offset end_) = end_ - offset.
Proof. intros H. unfold slice. rewrite length_firstn, length_skipn. lia. Qed.

Lemma unpack_loop_wf (buffer_size : nat) (buffer : Tensor) (rest : list ParamId) :
  forall (offset : nat) (s s' : Store),
    buffer_size <= tensor_numel buffer ->
    wf_store s ->
    unpack_loop buffer_size buffer rest offset s = Ok s' ->
    wf_store s'.
Proof.
  induction rest as [|p rest IH]; intros offset s s' Hcap Hwf H; simpl in H.
  - now injection H as <-.
  - destruct (Nat.ltb_spec (offset + numel (s p)) buffer_size) as [Hlt|Hge].
    2:{ now injection H as <-. }
    destruct (grad (s p)) as [g|] eqn:Hg; [|discriminate].
    eapply IH; [eassumption| |eassumption].
    apply wf_set_grad; [assumption|].
    simpl. unfold tensor_numel in Hcap. rewrite length_slice by lia. lia.
Qed.

Lemma wait_buckets_keeps (transport : Transport) (self_rank buffer_size : nat)
    (per_rank_params : list (list ParamId)) (breqs : list (Work * nat)) :
  (forall w l, length (transport w l) = length l) ->
  forall (s s' : Store) (buffers buffers' : list Tensor),
    wf_store s ->
    Forall (fun b => tensor_numel b = buffer_size) buffers ->
    wait_buckets transport self_rank buffer_size per_rank_params breqs s buffers
    = Ok (s', buffers') ->
    wf_store s'
    /\ length buffers' = length buffers
    /\ Forall (fun b => tensor_numel b = buffer_size) buffers'.
Proof.
  intros HT. induction breqs as [|[w r] breqs IH];
    intros s s' buffers buffers' Hwf Hsz H; simpl in H.
  - injection H as <- <-. auto.
  - destruct (wait transport w s buffers) as [s1 b1] eqn:Hw.
    destruct (wait_keeps transport buffer_size _ _ _ _ _ HT Hw) as (Hwf1 & Hsz1).
    apply wait_inv in Hw. destruct Hw as (_ & Hlen1 & _).
    specialize (Hwf1 Hwf). specialize (Hsz1 Hsz).
    destruct (Nat.eqb_spec r self_rank) as [->|Hne].
    + destruct (nth_error per_rank_params self_rank) as [params|]; [|discriminate].
      destruct (nth_error b1 self_rank) as [buffer1|] eqn:Hb1; [|discriminate].
      destruct (unpack_loop buffer_size buffer1 params 0 s1) as [s2|] eqn:Hu;
        [|discriminate].
      simpl in H. apply IH in H; try assumption.
      * destruct H as (H1 & H2 & H3). split; [assumption|]. split; [congruence|].
        assumption.
      * eapply unpack_loop_wf; [|eassumption|eassumption].
        rewrite Forall_forall in Hsz1.
        rewrite (Hsz1 buffer1); [lia|]. eapply nth_error_In; eassumption.
    + simpl in H. apply IH in H; try assumption.
      destruct H as (H1 & H2 & H3). split; [assumption|]. split; [congruence|].
      assumption.
Qed.

Lemma wait_all_keeps (transport : Transport) (buffer_size : nat) (reqs : list Work) :
  (forall w l, length (transport w l) = length l) ->
  forall (s s' : Store) (buffers buffers' : list Tensor),
    wf_store s ->
    Forall (fun b => tensor_numel b = buffer_size) buffers ->
    wait_all transport reqs s buffers = (s', buffers') ->
    wf_store s'
    /\ length buffers' = length buffers
    /\ Forall (fun b => tensor_numel b = buffer_size) buffers'.
Proof.
  intros HT. induction reqs as [|w reqs IH];
    intros s s' buffers buffers' Hwf Hsz H; simpl in H.
  - injection H as <- <-. auto.
  - destruct (wait transport w s buffers) as [s1 b1] eqn:Hw.
    destruct (wait_keeps transport buffer_size _ _ _ _ _ HT Hw) as (Hwf1 & Hsz1).
    apply wait_inv in Hw. destruct Hw as (_ & Hlen1 & _).
    apply IH in H; auto.
    destruct H as (H1 & H2 & H3). split; [assumption|]. split; [congruence|].
    assumption.
Qed.

(** X6.  The shapes are an invariant of the task.  On well-shaped tensors and
    with a transport that keeps the sizes, a completed task leaves every
    gradient with the size of its parameter, as many buffers as it found,
    and every buffer with the capacity it had: the next task starts from
    the same shapes. *)
Theorem task_keeps_shapes (transport : Transport) (b0 : Tensor)
    (rest : list Tensor) (per_rank_params : list (list ParamId))
    (group : Group) (self_rank ws : nat) (s : Store) (st : TaskState) :
  let buffers := b0 :: rest in
  let buffer_size := tensor_numel b0 in
  (forall w l, length (transport w l) = length l) ->
  wf_store s ->
  Forall (fun b => tensor_numel b = buffer_size) buffers ->
  length per_rank_params <= length buffers ->
  _reduce_grads_task transport buffers per_rank_params group self_rank ws s = Ok st ->
  wf_store (st_store st)
  /\ length (st_buffers st) = length buffers
  /\ Forall (fun b => tensor_numel b = buffer_size) (st_buffers st).
Proof.
  intros buffers buffer_size HT Hwf Hsz Hlen Htask.
  destruct (task_inv _ _ _ _ _ _ _ _ Htask)
    as (C & st0 & s1 & b1 & Hs & Hw & Ha & _ & _).
  apply submit_all_inv in Hs.
  destruct Hs as (b0' & rest' & [= <- <-] & -> & Hs).
  fold buffer_size in Hs, Hw.
  assert (Hlen0 : 0 + length per_rank_params
                  <= length (st_buffers (initial_state s buffers))) by exact Hlen.
  pose proof (reduce_ranks_shape _ _ _ _ _ _ _ Hlen0 Hs) as (_ & Hl0 & Hwf0).
  pose proof (reduce_ranks_sizes _ _ _ _ _ _ _ Hlen0 Hwf Hsz Hs) as Hsz0.
  specialize (Hwf0 Hwf). simpl in Hl0.
  destruct (wait_buckets_keeps _ _ _ _ _ HT _ _ _ _ Hwf0 Hsz0 Hw)
    as (Hwf1 & Hl1 & Hsz1).
  destruct (wait_all_keeps _ buffer_size _ HT _ _ _ _ Hwf1 Hsz1 Ha)
    as (Hwf2 & Hl2 & Hsz2).
  split; [assumption|]. split; [|assumption].
  rewrite Hl2, Hl1, Hl0. reflexivity.
Qed.

Lemma alone_keeps_sizes : forall (w : Work) (l : list Q), length (alone w l) = length l.
Proof. reflexivity. Qed.

Lemma task_keeps_shapes_witness :
  let st := match _reduce_grads_task alone two_rank_buffers two_rank_params
                    WORLD 1 2 small_store with
            | Ok st => st
            | Raise _ => initial_state small_store []
            end in
  wf_store (st_store st)
  /\ length (st_buffers st) = length two_rank_buffers
  /\ Forall (fun b => tensor_numel b = 5) (st_buffers st).
Proof.
  apply (task_keeps_shapes alone (zeros 5 float32) [zeros 5 float32]
           two_rank_params WORLD 1 2 small_store).
  - exact alone_keeps_sizes.
  - exact wf_small_store.
  - repeat constructor.
  - simpl. lia.
  - reflexivity.
Defined.

(** ** Packing and unpacking, there and back *)











(** ** Ranks without a buffer *)

Lemma reduce_ranks_truncate (group : Group) (ws buffer_size : nat)
    (per_rank_params : list (list ParamId)) :
  forall (rank : nat) (st : TaskState),
    reduce_ranks group ws buffer_size rank per_rank_params st
    = reduce_ranks group ws buffer_size rank
        (firstn (length (st_buffers st) - rank) per_rank_params) st.
Proof.
  induction per_rank_params as [|params rest IH]; intros rank st.
  - now rewrite firstn_nil.
  - simpl. destruct (nth_error (st_buffers st) rank) as [buffer|] eqn:Hb.
    + assert (Hlt : rank < length (st_buffers st))
        by (apply nth_error_Some; congruence).
      replace (length (st_buffers st) - rank)
        with (S (length (st_buffers st) - S rank)) by lia.
      simpl. rewrite Hb.
      destruct (reduce_rank group ws buffer_size rank params buffer st)
        as [st1|e] eqn:H1; simpl; [|reflexivity].
      rewrite IH. now rewrite (reduce_rank_length _ _ _ _ _ _ _ _ H1).
    + apply nth_error_None in Hb.
      replace (length (st_buffers st) - rank) with 0 by lia. reflexivity.
Qed.

Lemma wait_buckets_ext (transport : Transport) (self_rank buffer_size : nat)
    (prp prp' : list (list ParamId)) (breqs : list (Work * nat)) :
  (In self_rank (map snd breqs) ->
   nth_error prp self_rank = nth_error prp' self_rank) ->
  forall (s : Store) (buffers : list Tensor),
    wait_buckets transport self_rank buffer_size prp breqs s buffers
    = wait_buckets transport self_rank buffer_size prp' breqs s buffers.
Proof.
  induction breqs as [|[w r] breqs IH]; intros Hsame s buffers; simpl;
    [reflexivity|].
  destruct (wait transport w s buffers) as [s1 b1].
  destruct (Nat.eqb_spec r self_rank) as [->|Hne].
  - rewrite <- (Hsame (or_introl eq_refl)).
    destruct (nth_error prp self_rank) as [params|]; [|reflexivity].
    destruct (nth_error b1 self_rank) as [buffer|]; [|reflexivity].
    destruct (unpack_loop buffer_size buffer params 0 s1) as [s2|]; simpl;
      [|reflexivity].
    apply IH. intros Hin. apply Hsame. now right.
  - simpl. apply IH. intros Hin. apply Hsame. now right.
Qed.

Lemma task_truncate (transport : Transport)
    (buffers : list Tensor) (per_rank_params : list (list ParamId))
    (group : Group) (self_rank ws : nat) (s : Store) :
  _reduce_grads_task transport buffers per_rank_params group self_rank ws s
  = _reduce_grads_task transport buffers
      (firstn (length buffers) per_rank_params) group self_rank ws s.
Proof.
  unfold _reduce_grads_task.
  assert (Hsub : submit_all buffers per_rank_params group ws s
                 = submit_all buffers (firstn (length buffers) per_rank_params)
                     group ws s).
  { unfold submit_all. destruct buffers as [|b0 rest]; [reflexivity|].
    rewrite reduce_ranks_truncate. simpl st_buffers.
    now rewrite Nat.sub_0_r. }
  rewrite Hsub.
  destruct (submit_all buffers (firstn (length buffers) per_rank_params) group ws s)
    as [[C st]|e] eqn:Hs; [|reflexivity].
  simpl.
  rewrite (wait_buckets_ext transport self_rank C per_rank_params
             (firstn (length buffers) per_rank_params)); [reflexivity|].
  intros Hin.
  assert (Hlen : length (firstn (length buffers) per_rank_params) <= length buffers)
    by (rewrite length_firstn; lia).
  destruct (submit_all_works _ _ _ _ _ _ _ Hlen Hs) as (Hbr & _).
  rewrite Hbr in Hin. apply in_map_iff in Hin.
  destruct Hin as ([w r] & Hr & Hin). simpl in Hr. subst r.
  apply in_all_bucket_works in Hin. rewrite Nat.sub_0_r in Hin.
  destruct Hin as (_ & _ & params & Hn & _).
  assert (Hlt : self_rank < length (firstn (length buffers) per_rank_params))
    by (apply nth_error_Some; congruence).
  rewrite length_firstn in Hlt.
  symmetry. apply nth_error_firstn_lt. lia.
Qed.

(** X9.  The loop over the ranks ends with the shorter of the two sequences: the
    lists of the ranks that have no buffer are ignored, without an error.
    The task does on the whole partition what it does on the partition cut
    at the number of buffers. *)
Theorem ranks_without_buffer_are_skipped (transport : Transport)
    (buffers : list Tensor) (per_rank_params : list (list ParamId))
    (group : Group) (self_rank ws : nat) (s : Store) :
  _reduce_grads_task transport buffers per_rank_params group self_rank ws s
  = _reduce_grads_task transport buffers
      (firstn (length buffers) per_rank_params) group self_rank ws s.
Proof.
  apply task_truncate.
Qed.

(** A list beyond the buffers is not even looked at: its parameters keep
    absent slots and marked gradients raise nothing. *)
Example rank_without_buffer :
  exists st,
    _reduce_grads_task alone [zeros 5 float32] [[0]; [1; 2]] WORLD 0 2 small_store
    = Ok st
    /\ bucket_requests st = [(mkWork (BufferRef 0) 0, 0)]
    /\ requests st = []
    /\ grad (st_store st 1) = None.
Proof. eexists. repeat split; reflexivity. Qed.

(** ** Construction: when it fails *)

Lemma alloc_buffers_cases (s : Store) (buffer_size : Z)
    (items : Dict (list (list ParamId))) :
  (0 <= buffer_size)%Z ->
  forall reduce_buffers,
    if existsb (fun item => match hd [] (snd item) with [] => true | _ => false end)
               items
    then alloc_buffers s buffer_size items reduce_buffers = Raise IndexError
    else exists reduce_buffers',
           alloc_buffers s buffer_size items reduce_buffers = Ok reduce_buffers'.
Proof.
  intros Hpos. induction items as [|[device per_device] items IH]; intros rb; simpl.
  - eauto.
  - destruct per_device as [|[|p ps] rest]; simpl; try reflexivity.
    destruct (Z.ltb_spec buffer_size 0) as [Hlt|Hge]; [lia|]. apply IH.
Qed.

(** X10.  Construction with a ceiling that is not negative fails exactly when, on
    some device, rank 0 has no parameter (the list of the device is empty
    or its first list is): then [per_device[0][0]] raises [IndexError], and
    nothing else is raised. *)
Theorem construction_fails_iff (s : Store) (base_model : list ParamId)
    (items : Dict (list (list ParamId))) (group : Group)
    (self_rank group_size : nat) (ceiling : Z) :
  let init := ModelDispatch_init s base_model items group self_rank group_size
                                 ceiling in
  (0 <= ceiling)%Z ->
  (init = Raise IndexError
   <-> exists device per_device,
         In (device, per_device) items /\ hd [] per_device = [])
  /\ (forall e, init = Raise e -> e = IndexError)
  /\ ((forall device per_device,
         In (device, per_device) items -> hd [] per_device <> []) ->
      exists m, init = Ok m).
Proof.
  intros init Hpos. unfold init, ModelDispatch_init.
  set (C := Z.min ceiling (Z.of_nat (sum_numel s base_model))).
  assert (HC : (0 <= C)%Z) by (unfold C; lia).
  pose proof (alloc_buffers_cases s C items HC []) as Hc.
  assert (Hiff : existsb (fun item => match hd [] (snd item) with
                                      | [] => true | _ => false end) items = true
                 <-> exists device per_device,
                       In (device, per_device) items /\ hd [] per_device = []).
  { rewrite existsb_exists. split.
    - intros ([d pd] & Hin & Hhd). simpl in Hhd. exists d, pd.
      split; [assumption|]. now destruct (hd [] pd).
    - intros (d & pd & Hin & Hhd). exists (d, pd). split; [assumption|].
      simpl. now rewrite Hhd. }
  destruct (existsb _ items) eqn:Hex.
  - rewrite Hc. simpl. split; [|split].
    + split; [intros _; now apply Hiff | reflexivity].
    + intros e [= <-]. reflexivity.
    + intros Hgood. exfalso.
      destruct (proj1 Hiff eq_refl) as (d & pd & Hin & Hhd).
      exact (Hgood d pd Hin Hhd).
  - destruct Hc as (rb & ->). simpl. split; [|split].
    + split; [discriminate|]. intros H. apply Hiff in H. discriminate.
    + discriminate.
    + intros _. eauto.
Qed.

Lemma construction_fails_iff_witness :
  (ModelDispatch_init small_store [0] [(cpu, [[]; [0]])] WORLD 1 2 1000
   = Raise IndexError
   <-> exists device per_device,
         In (device, per_device) [(cpu, [[]; [0]])] /\ hd [] per_device = [])
  /\ (forall e,
        ModelDispatch_init small_store [0] [(cpu, [[]; [0]])] WORLD 1 2 1000
        = Raise e -> e = IndexError)
  /\ ((forall device per_device,
         In (device, per_device) [(cpu, [[]; [0]])] -> hd [] per_device <> []) ->
      exists m,
        ModelDispatch_init small_store [0] [(cpu, [[]; [0]])] WORLD 1 2 1000
        = Ok m).
Proof.
  apply (construction_fails_iff small_store [0] [(cpu, [[]; [0]])] WORLD 1 2 1000).
  lia.
Defined.

(** With a negative ceiling and at least one device, construction fails:
    [torch.zeros] refuses the size, unless [per_device[0][0]] has failed
    before. *)
Lemma construction_negative_ceiling (s : Store) (base_model : list ParamId)
    (items : Dict (list (list ParamId))) (group : Group)
    (self_rank group_size : nat) (ceiling : Z) :
  (ceiling < 0)%Z -> items <> [] ->
  exists e,
    ModelDispatch_init s base_model items group self_rank group_size ceiling
    = Raise e.
Proof.
  intros Hneg Hne. unfold ModelDispatch_init.
  set (C := Z.min ceiling (Z.of_nat (sum_numel s base_model))).
  assert (HC : (C < 0)%Z) by (unfold C; lia).
  destruct items as [|[device per_device] items]; [contradiction|]. simpl.
  destruct per_device as [|[|p ps] rest]; simpl; eauto.
  destruct (Z.ltb_spec C 0) as [Hlt|Hge]; [|lia]. simpl. eauto.
Qed.

(** A partition that gives rank 0 nothing on the device, and rank 1 one
    parameter: construction raises. *)
Example construction_with_empty_rank0 :
  ModelDispatch_init small_store [0] [(cpu, [[]; [0]])] WORLD 1 2 1000
  = Raise IndexError.
Proof. reflexivity. Qed.

(** ** Dispatch on a constructed dispatcher *)







(** ** Broadcasts *)

Lemma nth_error_wait_broadcast (transport : BroadcastTransport)
    (tensors : list Tensor) (w : BroadcastWork) (i : nat) :
  nth_error (wait_broadcast transport tensors w) i
  = if i =? bcast_tensor w
    then option_map (fun t => copy_data t (transport w (data t)))
                    (nth_error tensors i)
    else nth_error tensors i.
Proof.
  unfold wait_broadcast. destruct (Nat.eqb_spec i (bcast_tensor w)) as [->|Hne].
  - destruct (nth_error tensors (bcast_tensor w)) as [t|] eqn:Ht; simpl.
    + apply nth_error_update_nth_eq. apply nth_error_Some. congruence.
    + assumption.
  - destruct (nth_error tensors (bcast_tensor w)) as [t|]; [|reflexivity].
    apply nth_error_update_nth_neq. congruence.
Qed.

(** Waiting on the handles of the tensors from position [a] on, [n] of
    them: each of these tensors holds what the transport left in it, the
    others are as they were. *)
Lemma nth_error_wait_broadcasts (transport : BroadcastTransport) (src n : nat) :
  forall (a : nat) (tensors : list Tensor) (i : nat),
    nth_error (fold_left (wait_broadcast transport)
                 (map (fun i => mkBroadcastWork i src) (seq a n)) tensors) i
    = if (a <=? i) && (i <? a + n)
      then option_map
             (fun t => copy_data t (transport (mkBroadcastWork i src) (data t)))
             (nth_error tensors i)
      else nth_error tensors i.
Proof.
  induction n as [|n IH]; intros a tensors i.
  - simpl. assert (Hf : (a <=? i) && (i <? a + 0) = false).
    { destruct (Nat.leb_spec a i), (Nat.ltb_spec i (a + 0)); simpl;
        try reflexivity; lia. }
    now rewrite Hf.
  - cbn [seq map fold_left]. rewrite IH, nth_error_wait_broadcast.
    cbn [bcast_tensor].
    replace (a + S n) with (S a + n) by lia.
    destruct (Nat.eqb_spec i a) as [->|Hne].
    + assert (H1 : (S a <=? a) = false) by (apply Nat.leb_gt; lia).
      assert (H2 : (a <=? a) = true) by (apply Nat.leb_le; lia).
      assert (H3 : (a <? S a + n) = true) by (apply Nat.ltb_lt; lia).
      rewrite H1, H2, H3. reflexivity.
    + destruct (Nat.lt_ge_cases i a) as [Hlt|Hge].
      * assert (H1 : (S a <=? i) = false) by (apply Nat.leb_gt; lia).
        assert (H2 : (a <=? i) = false) by (apply Nat.leb_gt; lia).
        rewrite H1, H2. reflexivity.
      * assert (H1 : (S a <=? i) = true) by (apply Nat.leb_le; lia).
        assert (H2 : (a <=? i) = true) by (apply Nat.leb_le; lia).
        rewrite H1, H2. reflexivity.
Qed.

Lemma ModelDispatch_wait_some (transport : BroadcastTransport)
    (requests : list BroadcastWork) (tensors : list Tensor) :
  ModelDispatch_wait transport (Some requests) tensors
  = fold_left (wait_broadcast transport) requests tensors.
Proof. now destruct requests. Qed.

(** What a blocking synchronisation leaves in the tensors. *)
Lemma sync_tensors_blocking (transport : BroadcastTransport) (src : nat)
    (tensors : list Tensor) :
  forall i,
    nth_error (snd (sync_tensors transport src false tensors)) i
    = option_map
        (fun t => copy_data t (transport (mkBroadcastWork i src) (data t)))
        (nth_error tensors i).
Proof.
  intros i. unfold sync_tensors, broadcast_all. cbn [snd].
  rewrite ModelDispatch_wait_some, nth_error_wait_broadcasts.
  destruct (Nat.lt_ge_cases i (length tensors)) as [Hlt|Hge].
  - assert (H1 : (0 <=? i) = true) by (apply Nat.leb_le; lia).
    assert (H2 : (i <? 0 + length tensors) = true) by (apply Nat.ltb_lt; lia).
    now rewrite H1, H2.
  - assert (Hnone : nth_error tensors i = None) by (now apply nth_error_None).
    rewrite Hnone. now destruct (_ && _).
Qed.

Lemma sync_tensors_data (self_global_rank reference_global_rank : nat)
    (source tensors : list Tensor) :
  length source = length tensors ->
  self_global_rank <> reference_global_rank ->
  map data (snd (sync_tensors (broadcast_transport self_global_rank source)
                   reference_global_rank false tensors))
  = map data source.
Proof.
  intros Hlen Hne. apply nth_error_ext. intros i.
  rewrite !nth_error_map, sync_tensors_blocking.
  unfold broadcast_transport. simpl.
  destruct (Nat.eqb_spec reference_global_rank self_global_rank); [congruence|].
  destruct (nth_error tensors i) as [t|] eqn:Ht; simpl.
  - destruct (nth_error source i) as [t'|] eqn:Hs; [reflexivity|].
    apply nth_error_None in Hs.
    assert (i < length tensors) by (apply nth_error_Some; congruence). lia.
  - apply nth_error_None in Ht.
    assert (Hs : nth_error source i = None) by (apply nth_error_None; lia).
    now rewrite Hs.
Qed.

Lemma sync_tensors_attributes (transport : BroadcastTransport) (src : nat)
    (tensors : list Tensor) :
  map tensor_dtype (snd (sync_tensors transport src false tensors))
  = map tensor_dtype tensors
  /\ map requires_grad (snd (sync_tensors transport src false tensors))
     = map requires_grad tensors.
Proof.
  split; apply nth_error_ext; intros i;
    rewrite !nth_error_map, sync_tensors_blocking;
    now destruct (nth_error tensors i).
Qed.

(** X12.  A blocking synchronisation, of the buffers or of the parameters, on a
    rank other than the reference rank: it returns nothing, and every tensor
    holds the elements of the tensor of the reference rank at the same
    position, with its own type and mark.  On the reference rank the
    tensors stay as they are. *)
Theorem blocking_sync_copies_the_reference (self_global_rank reference_global_rank
    : nat) (source tensors : list Tensor) :
  length source = length tensors ->
  let transport := broadcast_transport self_global_rank source in
  let synced := sync_buffers transport reference_global_rank false tensors in
  sync_parameters transport reference_global_rank false tensors = synced
  /\ fst synced = None
  /\ map tensor_dtype (snd synced) = map tensor_dtype tensors
  /\ map requires_grad (snd synced) = map requires_grad tensors
  /\ (self_global_rank <> reference_global_rank ->
      map data (snd synced) = map data source)
  /\ (self_global_rank = reference_global_rank -> snd synced = tensors).
Proof.
  intros Hlen transport synced. unfold synced, sync_buffers, sync_parameters.
  split; [reflexivity|]. split; [reflexivity|].
  destruct (sync_tensors_attributes transport reference_global_rank tensors)
    as (Hdt & Hrg).
  split; [assumption|]. split; [assumption|]. split.
  - intros Hne. now apply sync_tensors_data.
  - intros Heq. apply nth_error_ext. intros i. rewrite sync_tensors_blocking.
    unfold transport, broadcast_transport. simpl.
    rewrite Heq, Nat.eqb_refl.
    destruct (nth_error tensors i) as [[l dt rg]|]; reflexivity.
Qed.

Lemma blocking_sync_copies_the_reference_witness :
  let source := [mkTensor [1%Q; 2%Q] float32 false; mkTensor [3%Q] float32 false] in
  let tensors := [mkTensor [7%Q; 8%Q] float32 false; mkTensor [9%Q] float32 false] in
  let transport := broadcast_transport 1 source in
  let synced := sync_buffers transport 0 false tensors in
  sync_parameters transport 0 false tensors = synced
  /\ fst synced = None
  /\ map tensor_dtype (snd synced) = map tensor_dtype tensors
  /\ map requires_grad (snd synced) = map requires_grad tensors
  /\ (1 <> 0 -> map data (snd synced) = map data source)
  /\ (1 = 0 -> snd synced = tensors).
Proof.
  apply (blocking_sync_copies_the_reference 1 0
           [mkTensor [1%Q; 2%Q] float32 false; mkTensor [3%Q] float32 false]
           [mkTensor [7%Q; 8%Q] float32 false; mkTensor [9%Q] float32 false]).
  reflexivity.
Defined.

(** X13.  [forward] with the broadcast of the buffers switched on, on a rank other
    than the reference rank: the base model runs on buffers that hold the
    elements of the buffers of the reference rank, and the result is the
    tuple of its one output, with the buffers as the base model leaves
    them. *)
Theorem forward_runs_on_the_reference_buffers {I O : Type}
    (self_global_rank reference_global_rank : nat)
    (base_model_forward : I -> list Tensor -> O * list Tensor)
    (inputs : I) (source buffers : list Tensor) :
  length source = length buffers ->
  self_global_rank <> reference_global_rank ->
  exists synced,
    map data synced = map data source
    /\ map tensor_dtype synced = map tensor_dtype buffers
    /\ forward (broadcast_transport self_global_rank source) reference_global_rank
         true base_model_forward inputs buffers
       = ([fst (base_model_forward inputs synced)],
          snd (base_model_forward inputs synced)).
Proof.
  intros Hlen Hne. unfold forward. cbn [andb].
  destruct buffers as [|b buffers].
  - exists []. destruct source; [|discriminate]. simpl.
    destruct (base_model_forward inputs []). auto.
  - change (0 <? length (b :: buffers)) with true. cbv iota.
    unfold sync_buffers.
    exists (snd (sync_tensors (broadcast_transport self_global_rank source)
                   reference_global_rank false (b :: buffers))).
    split; [now apply sync_tensors_data|].
    split; [apply sync_tensors_attributes|].
    destruct (base_model_forward inputs _). reflexivity.
Qed.

Lemma forward_runs_on_the_reference_buffers_witness :
  exists synced,
    map data synced = map data [mkTensor [1%Q; 2%Q] float32 false]
    /\ map tensor_dtype synced = map tensor_dtype [mkTensor [7%Q; 8%Q] float32 false]
    /\ forward (broadcast_transport 1 [mkTensor [1%Q; 2%Q] float32 false]) 0
         true (fun (x : nat) (bs : list Tensor) => (x + length bs, bs))
         5 [mkTensor [7%Q; 8%Q] float32 false]
       = ([fst ((fun (x : nat) (bs : list Tensor) => (x + length bs, bs)) 5 synced)],
          snd ((fun (x : nat) (bs : list Tensor) => (x + length bs, bs)) 5 synced)).
Proof.
  apply (forward_runs_on_the_reference_buffers 1 0
           (fun (x : nat) (bs : list Tensor) => (x + length bs, bs)) 5
           [mkTensor [1%Q; 2%Q] float32 false]
           [mkTensor [7%Q; 8%Q] float32 false]).
  - reflexivity.
  - discriminate.
Defined.

(** ** A parameter listed twice *)

(** X14.  The reducer takes the partition as it is.  A parameter that is listed a
    second time in the unpacked suffix of its rank has its gradient divided
    twice, and two direct reductions are submitted for it. *)
Theorem repeated_parameter_is_divided_twice (ws global_rank : nat) (p : ParamId)
    (ps : list ParamId) (s s' : Store) (g : Tensor) (reqs reqs' : list Work) :
  In p ps ->
  NoDup ps ->
  grad (s p) = Some g ->
  reduce_direct ws global_rank (p :: ps) s reqs = Ok (s', reqs') ->
  grad (s' p) = Some (div_ (div_ g ws) ws)
  /\ exists i,
       nth_error reqs' (length reqs) = Some (mkWork (GradRef p) global_rank)
       /\ nth_error reqs' (length reqs + S i) = Some (mkWork (GradRef p) global_rank).
Proof.
  intros Hin Hnd Hg H. simpl in H. rewrite Hg in H.
  destruct (requires_grad g); [discriminate|].
  apply reduce_direct_inv in H.
  destruct H as (-> & _ & _ & _ & _ & _ & _ & Hdiv).
  split.
  - apply (Hdiv Hnd p (div_ g ws) Hin). apply set_grad_eq.
  - apply In_nth_error in Hin. destruct Hin as (i & Hi). exists i.
    rewrite <- !app_assoc. split.
    + rewrite nth_error_app2 by lia. now rewrite Nat.sub_diag.
    + rewrite nth_error_app2 by lia.
      replace (length reqs + S i - length reqs) with (S i) by lia.
      simpl. now apply nth_error_direct_works.
Qed.

Lemma repeated_parameter_is_divided_twice_witness :
  let s' := match reduce_direct 2 0 [2; 2] small_store [] with
            | Ok (s', _) => s'
            | Raise _ => small_store
            end in
  let reqs' := match reduce_direct 2 0 [2; 2] small_store [] with
               | Ok (_, reqs') => reqs'
               | Raise _ => []
               end in
  grad (s' 2) = Some (div_ (div_ (mkTensor [1%Q; 2%Q; 3%Q] float32 false) 2) 2)
  /\ exists i,
       nth_error reqs' (length (@nil Work)) = Some (mkWork (GradRef 2) 0)
       /\ nth_error reqs' (length (@nil Work) + S i) = Some (mkWork (GradRef 2) 0).
Proof.
  apply (repeated_parameter_is_divided_twice 2 0 2 [2] small_store
           _ (mkTensor [1%Q; 2%Q; 3%Q] float32 false) [] _).
  - now left.
  - repeat constructor. intros [].
  - reflexivity.
  - reflexivity.
Defined.

(** ** What a rank that does not own a parameter is left with *)



(** ** What a dispatch keeps *)

Lemma task_shape_any (transport : Transport) (buffers : list Tensor)
    (per_rank_params : list (list ParamId)) (group : Group)
    (self_rank ws : nat) (s : Store) (st : TaskState) :
  _reduce_grads_task transport buffers per_rank_params group self_rank ws s = Ok st ->
  same_shape s (st_store st) /\ length (st_buffers st) = length buffers.
Proof.
  intros Htask. rewrite task_truncate in Htask.
  destruct buffers as [|b0 rest]; [discriminate|].
  assert (Hlen : length (firstn (length (b0 :: rest)) per_rank_params)
                 <= length (b0 :: rest)) by (rewrite length_firstn; lia).
  split.
  - eapply task_final_shape; eassumption.
  - destruct (task_inv _ _ _ _ _ _ _ _ Htask)
      as (C & st0 & s1 & b1 & Hs & Hw & Ha & _ & _).
    pose proof (submit_all_works _ _ _ _ _ _ _ Hlen Hs) as (Hbr & Hreq).
    apply submit_all_inv in Hs.
    destruct Hs as (b0' & rest' & [= <- <-] & -> & Hs).
    assert (Hlen0 : 0 + length (firstn (length (b0 :: rest)) per_rank_params)
                    <= length (st_buffers (initial_state s (b0 :: rest))))
      by exact Hlen.
    pose proof (reduce_ranks_shape _ _ _ _ _ _ _ Hlen0 Hs) as (_ & Hl0 & _).
    apply wait_buckets_inv in Hw.
    2:{ intros w r Hin. rewrite Hbr in Hin. apply in_all_bucket_works in Hin.
        now destruct Hin as (_ & -> & _). }
    destruct Hw as (_ & Hl1 & _).
    apply wait_all_inv in Ha.
    2:{ intros w Hin. rewrite Hreq in Hin. apply in_all_direct_works in Hin.
        destruct Hin as (i & params & q & _ & _ & ->). now exists q. }
    destruct Ha as (_ & Hl2 & _).
    rewrite Hl2, Hl1, Hl0. reflexivity.
Qed.

Lemma dict_set_keys {V : Type} (d : Dict V) (k : Device) (v v0 : V) :
  dict_get d k = Ok v0 -> map fst (dict_set d k v) = map fst d.
Proof.
  induction d as [|[k' v'] d IH]; simpl; [discriminate|].
  destruct (Device_eqb_spec k' k) as [->|Hne]; simpl; [reflexivity|].
  intros H. now rewrite IH.
Qed.

Lemma dispatch_devices_keeps (transport : Device -> Transport) (group : Group)
    (self_rank ws : nat) (items : Dict (list (list ParamId))) :
  forall (s s' : Store) (rb rb' : Dict (list Tensor)),
    dispatch_devices transport group self_rank ws items s rb = Ok (s', rb') ->
    same_shape s s' /\ map fst rb' = map fst rb.
Proof.
  induction items as [|[device per_device] items IH]; intros s s' rb rb' H;
    simpl in H.
  - injection H as <- <-. split; [apply same_shape_refl | reflexivity].
  - destruct (dict_get rb device) as [buffers|] eqn:Hget; [|discriminate].
    simpl in H.
    destruct (_reduce_grads_task (transport device) buffers per_device group
                self_rank ws s) as [st|] eqn:Htask; [|discriminate].
    simpl in H. apply IH in H. destruct H as (Hshape & Hkeys).
    apply task_shape_any in Htask. destruct Htask as (Hshape1 & _).
    split; [eapply same_shape_trans; eassumption|].
    rewrite Hkeys. eapply dict_set_keys; eassumption.
Qed.

(** X16.  A completed dispatch keeps the dispatcher as it is, apart from the
    contents of the buffers: the same group, base model, partition, rank and
    world size, and buffers for the same devices in the same order.  It
    changes neither the size nor the type of a parameter, removes no
    gradient and changes no mark. *)
Theorem dispatch_keeps_the_dispatcher (transport : Device -> Transport)
    (self self' : ModelDispatch) (s s' : Store) :
  dispatch_grads transport self s = Ok (s', self') ->
  process_group self' = process_group self
  /\ base_model self' = base_model self
  /\ per_device_params self' = per_device_params self
  /\ rank self' = rank self
  /\ world_size self' = world_size self
  /\ map fst (_reduce_buffers self') = map fst (_reduce_buffers self)
  /\ forall q,
       numel (s' q) = numel (s q)
       /\ dtype (s' q) = dtype (s q)
       /\ (grad (s q) <> None -> grad (s' q) <> None)
       /\ grad_requires_grad s' q = grad_requires_grad s q.
Proof.
  unfold dispatch_grads. intros H.
  destruct (dispatch_devices transport (process_group self) (rank self)
              (world_size self) (per_device_params self) s (_reduce_buffers self))
    as [[s1 rb1]|] eqn:Hd; [|discriminate].
  simpl in H. injection H as <- <-. simpl.
  apply dispatch_devices_keeps in Hd. destruct Hd as ([Hn Hdt Hf Hp] & Hkeys).
  repeat (split; [reflexivity|]). split; [assumption|].
  intros q. auto.
Qed.

Lemma dispatch_keeps_the_dispatcher_witness :
  let m := match ModelDispatch_init small_store [0; 1; 2] [(cpu, [[0; 1; 2]])]
                   WORLD 0 1 1000 with
           | Ok m => m
           | Raise _ => mkModelDispatch WORLD [] [] 0 0 []
           end in
  let r := match dispatch_grads (fun _ => alone) m small_store with
           | Ok r => r
           | Raise _ => (small_store, m)
           end in
  process_group (snd r) = process_group m
  /\ base_model (snd r) = base_model m
  /\ per_device_params (snd r) = per_device_params m
  /\ rank (snd r) = rank m
  /\ world_size (snd r) = world_size m
  /\ map fst (_reduce_buffers (snd r)) = map fst (_reduce_buffers m)
  /\ forall q,
       numel (fst r q) = numel (small_store q)
       /\ dtype (fst r q) = dtype (small_store q)
       /\ (grad (small_store q) <> None -> grad (fst r q) <> None)
       /\ grad_requires_grad (fst r) q = grad_requires_grad small_store q.
Proof.
  apply (dispatch_keeps_the_dispatcher (fun _ => alone)).
  reflexivity.
Defined.
